(** * The animated US map of src/scripts/globe.ts

    A shallow embedding of the [USMap] class: the projection from
    latitude/longitude to pixels, the resize computation, the generation of
    the connection mesh and the per-frame packet animation, followed by the
    properties of the specification that concern them.

    Numbers.  A JavaScript [number] is modelled as an exact rational extended
    with [+Infinity], [-Infinity] and [NaN]: every operation has the IEEE-754
    special cases (division by zero, [Infinity - Infinity], [0 * Infinity],
    comparisons with [NaN]) and is exact on finite values.  Rounding to
    binary64 and the sign of zero are not modelled; a zero divisor is the
    positive zero, which is what [window.innerHeight] can be. *)

From Stdlib Require Import QArith Qround Qminmax Lqa List Lia ZArith Bool Arith String.
Import ListNotations.

(** ** JavaScript numbers and arrays *)

Module JS.

Inductive number : Type :=
| Fin (q : Q)
| PInf
| NInf
| NaN.

Definition inf (positive : bool) : number := if positive then PInf else NInf.

Definition add (a b : number) : number :=
  match a, b with
  | NaN, _ | _, NaN => NaN
  | Fin p, Fin q => Fin (p + q)
  | PInf, NInf | NInf, PInf => NaN
  | PInf, _ | _, PInf => PInf
  | NInf, _ | _, NInf => NInf
  end.

Definition sub (a b : number) : number :=
  match a, b with
  | NaN, _ | _, NaN => NaN
  | Fin p, Fin q => Fin (p - q)
  | PInf, PInf | NInf, NInf => NaN
  | PInf, _ | _, NInf => PInf
  | NInf, _ | _, PInf => NInf
  end.

(** [Infinity * b], or [-Infinity * b] when [positive] is false. *)
Definition mul_inf (positive : bool) (b : number) : number :=
  match b with
  | NaN => NaN
  | PInf => inf positive
  | NInf => inf (negb positive)
  | Fin q =>
      match q ?= 0 with
      | Eq => NaN
      | Gt => inf positive
      | Lt => inf (negb positive)
      end
  end.

Definition mul (a b : number) : number :=
  match a, b with
  | Fin p, Fin q => Fin (p * q)
  | NaN, _ | _, NaN => NaN
  | PInf, _ => mul_inf true b
  | NInf, _ => mul_inf false b
  | _, PInf => mul_inf true a
  | _, NInf => mul_inf false a
  end.

Definition div (a b : number) : number :=
  match a, b with
  | NaN, _ | _, NaN => NaN
  | Fin p, Fin q =>
      match q ?= 0 with
      | Eq =>
          match p ?= 0 with
          | Eq => NaN
          | Gt => PInf
          | Lt => NInf
          end
      | _ => Fin (p / q)
      end
  | Fin _, _ => Fin 0
  | _, PInf | _, NInf => NaN
  | PInf, Fin q => match q ?= 0 with Lt => NInf | _ => PInf end
  | NInf, Fin q => match q ?= 0 with Lt => PInf | _ => NInf end
  end.

(** The order of two numbers; [None] when one of them is [NaN]. *)
Definition compare (a b : number) : option comparison :=
  match a, b with
  | NaN, _ | _, NaN => None
  | Fin p, Fin q => Some (p ?= q)
  | PInf, PInf | NInf, NInf => Some Eq
  | PInf, _ | _, NInf => Some Gt
  | NInf, _ | _, PInf => Some Lt
  end.

Definition lt (a b : number) : bool :=
  match compare a b with Some Lt => true | _ => false end.

Definition gt (a b : number) : bool :=
  match compare a b with Some Gt => true | _ => false end.

Definition ge (a b : number) : bool :=
  match compare a b with Some Gt | Some Eq => true | _ => false end.

Definition Math_min (a b : number) : number :=
  match a, b with
  | Fin p, Fin q => Fin (Qmin p q)
  | _, _ =>
      match compare a b with
      | None => NaN
      | Some Gt => b
      | Some _ => a
      end
  end.

Definition Math_floor (a : number) : number :=
  match a with
  | Fin q => Fin (inject_Z (Qfloor q))
  | _ => a
  end.

(** [a || b] on numbers: [0] and [NaN] are falsy. *)
Definition or_else (a b : number) : number :=
  match a with
  | NaN => b
  | Fin q => match q ?= 0 with Eq => b | _ => a end
  | _ => a
  end.

Definition of_nat (n : nat) : number := Fin (inject_Z (Z.of_nat n)).

(** Equality of numbers as values: finite numbers are compared as rationals. *)
Definition eqv (a b : number) : Prop :=
  match a, b with
  | Fin p, Fin q => p == q
  | PInf, PInf | NInf, NInf | NaN, NaN => True
  | _, _ => False
  end.

Definition array_length {A : Type} (arr : list A) : number :=
  of_nat (List.length arr).

(** [arr[i]]: the element when [i] is an integer index inside the array,
    [undefined] ([None]) otherwise. *)
Definition array_get {A : Type} (arr : list A) (i : number) : option A :=
  match i with
  | Fin q =>
      if Qeq_bool (inject_Z (Qfloor q)) q && (0 <=? Qfloor q)%Z
      then nth_error arr (Z.to_nat (Qfloor q))
      else None
  | _ => None
  end.

Definition push {A : Type} (arr : list A) (v : A) : list A := arr ++ [v].

Definition le (a b : number) : bool :=
  match compare a b with Some Lt | Some Eq => true | _ => false end.

End JS.

Import JS.

Declare Scope num_scope.
Delimit Scope num_scope with num.
Bind Scope num_scope with number.
Infix "+" := JS.add : num_scope.
Infix "-" := JS.sub : num_scope.
Infix "*" := JS.mul : num_scope.
Infix "/" := JS.div : num_scope.
Infix "<?" := JS.lt : num_scope.
Infix ">?" := JS.gt : num_scope.
Infix ">=?" := JS.ge : num_scope.
Infix "<=?" := JS.le : num_scope.
Infix "=~" := JS.eqv (at level 70, no associativity).

(** ** The data of the module *)

Module EdgeLocation.
Record t : Type := mk { name : string; lat : number; lon : number }.
End EdgeLocation.

Module Point2D.
Record t : Type := mk { x : number; y : number }.
End Point2D.

Module DataPacket.
Record t : Type := mk { from : number; to : number; progress : number; speed : number }.
End DataPacket.

Module Connection.
Record t : Type := mk { from : nat; to : nat }.
End Connection.

Open Scope Q_scope.

Definition edgeLocations : list EdgeLocation.t :=
  [ EdgeLocation.mk "Ashburn, VA" (Fin 39.04) (Fin (-77.49));
    EdgeLocation.mk "Atlanta, GA" (Fin 33.75) (Fin (-84.39));
    EdgeLocation.mk "Boston, MA" (Fin 42.36) (Fin (-71.06));
    EdgeLocation.mk "Jacksonville, FL" (Fin 30.33) (Fin (-81.66));
    EdgeLocation.mk "Miami, FL" (Fin 25.76) (Fin (-80.19));
    EdgeLocation.mk "New York, NY" (Fin 40.71) (Fin (-74.01));
    EdgeLocation.mk "Newark, NJ" (Fin 40.74) (Fin (-74.17));
    EdgeLocation.mk "Philadelphia, PA" (Fin 39.95) (Fin (-75.17));
    EdgeLocation.mk "Tampa Bay, FL" (Fin 27.95) (Fin (-82.46));
    EdgeLocation.mk "Washington D.C." (Fin 38.91) (Fin (-77.04));
    EdgeLocation.mk "Chicago, IL" (Fin 41.88) (Fin (-87.63));
    EdgeLocation.mk "Columbus, OH" (Fin 39.96) (Fin (-83.00));
    EdgeLocation.mk "Dallas/Fort Worth, TX" (Fin 32.78) (Fin (-96.80));
    EdgeLocation.mk "Denver, CO" (Fin 39.74) (Fin (-104.99));
    EdgeLocation.mk "Houston, TX" (Fin 29.76) (Fin (-95.37));
    EdgeLocation.mk "Kansas City, MO" (Fin 39.10) (Fin (-94.58));
    EdgeLocation.mk "Minneapolis, MN" (Fin 44.98) (Fin (-93.27));
    EdgeLocation.mk "Nashville, TN" (Fin 36.16) (Fin (-86.78));
    EdgeLocation.mk "South Bend, IN" (Fin 41.68) (Fin (-86.25));
    EdgeLocation.mk "St. Louis, MO" (Fin 38.63) (Fin (-90.20));
    EdgeLocation.mk "Hayward, CA" (Fin 37.67) (Fin (-122.08));
    EdgeLocation.mk "Los Angeles, CA" (Fin 34.05) (Fin (-118.24));
    EdgeLocation.mk "Palo Alto, CA" (Fin 37.44) (Fin (-122.14));
    EdgeLocation.mk "Phoenix, AZ" (Fin 33.45) (Fin (-112.07));
    EdgeLocation.mk "Portland, OR" (Fin 45.52) (Fin (-122.68));
    EdgeLocation.mk "Salt Lake City, UT" (Fin 40.76) (Fin (-111.89));
    EdgeLocation.mk "San Jose, CA" (Fin 37.34) (Fin (-121.89));
    EdgeLocation.mk "Seattle, WA" (Fin 47.61) (Fin (-122.33)) ].

(** ** The host environment

    The window supplies the viewport size, the device pixel ratio and the
    reduced-motion preference.  The canvas is a pair of bitmap dimensions and
    CSS lengths, and its 2D context carries the current scale and the
    smoothing settings.  Assigning [canvas.width] or [canvas.height] resets
    the context to its default state, as the HTML standard prescribes; the
    renderer relies on it when it sets the smoothing flags again after each
    resize. *)

Module Window.
Record t : Type := mk {
  innerWidth : number;
  innerHeight : number;
  devicePixelRatio : number;
  prefersReducedMotion : bool  (* matchMedia("(prefers-reduced-motion: reduce)").matches *)
}.
End Window.

Module Context2D.
Record t : Type := mk {
  scaleX : number;
  scaleY : number;
  imageSmoothingEnabled : bool;
  imageSmoothingQuality : string
}.

Definition default : t := mk (Fin 1) (Fin 1) true "low".

Definition scale (sx sy : number) (c : t) : t :=
  mk (scaleX c * sx)%num (scaleY c * sy)%num
     (imageSmoothingEnabled c) (imageSmoothingQuality c).

Definition set_imageSmoothingEnabled (b : bool) (c : t) : t :=
  mk (scaleX c) (scaleY c) b (imageSmoothingQuality c).

Definition set_imageSmoothingQuality (q : string) (c : t) : t :=
  mk (scaleX c) (scaleY c) (imageSmoothingEnabled c) q.
End Context2D.

Module Canvas.
Record t : Type := mk {
  width : number;
  height : number;
  style_width : number;   (* in CSS pixels *)
  style_height : number
}.
End Canvas.

(** The border data handed to [loadUSBorder], after [topojson.feature]. *)
Module GeoJSON.
Definition Ring : Type := list (number * number).   (* [lon, lat] pairs *)

Inductive Geometry : Type :=
| Polygon (coordinates : list Ring)
| MultiPolygon (coordinates : list (list Ring))
| OtherGeometry.

Inductive Feature : Type :=
| FeatureCollection (features : list Geometry)
| SingleFeature (geometry : Geometry).
End GeoJSON.

(** The calls a frame makes on the 2D context, in the order it makes them.
    A gradient is the object [createRadialGradient] returns, with the colour
    stops added to it before it becomes the fill style. *)
Module Draw.

Record Gradient : Type := createRadialGradient {
  x0 : number; y0 : number; r0 : number;
  x1 : number; y1 : number; r1 : number;
  colorStops : list (number * string)
}.

Inductive Style : Type :=
| Color (c : string)
| Radial (g : Gradient).

Inductive Command : Type :=
| clearRect (x y w h : number)
| set_strokeStyle (c : string)
| set_fillStyle (st : Style)
| set_lineWidth (w : number)
| set_lineCap (v : string)
| set_lineJoin (v : string)
| beginPath
| closePath
| stroke
| fill
| moveTo (x y : number)
| lineTo (x y : number)
| arc (x y radius startAngle endAngle : number).

End Draw.

Module colors.
Definition main : string := "#00ff88".
Definition glow : string := "rgba(0, 255, 136, 0.5)".
Definition line : string := "rgba(0, 255, 136, 0.08)".
End colors.

(** What a frame did: it returned, or a property of [undefined] was read. *)
Inductive Completion : Type :=
| Normal
| TypeError.

(** ** The class [USMap] *)

Module USMap.

Record t : Type := mk {
  canvas : Canvas.t;
  ctx : Context2D.t;
  width : number;
  height : number;
  mapWidth : number;
  mapHeight : number;
  offsetX : number;
  offsetY : number;
  dataPackets : list DataPacket.t;
  prefersReducedMotion : bool;
  pixelRatio : number;
  nationPath : list GeoJSON.Ring;
  connections : list Connection.t
}.

Definition US_LAT_MIN : number := Fin 24.
Definition US_LAT_MAX : number := Fin 50.
Definition US_LON_MIN : number := Fin (-125).
Definition US_LON_MAX : number := Fin (-66).

(** Field updates. *)

Definition set_surface (cv : Canvas.t) (cx : Context2D.t) (s : t) : t :=
  mk cv cx (width s) (height s) (mapWidth s) (mapHeight s) (offsetX s)
     (offsetY s) (dataPackets s) (prefersReducedMotion s) (pixelRatio s)
     (nationPath s) (connections s).

Definition set_size (w h : number) (s : t) : t :=
  mk (canvas s) (ctx s) w h (mapWidth s) (mapHeight s) (offsetX s)
     (offsetY s) (dataPackets s) (prefersReducedMotion s) (pixelRatio s)
     (nationPath s) (connections s).

Definition set_projection (mw mh ox oy : number) (s : t) : t :=
  mk (canvas s) (ctx s) (width s) (height s) mw mh ox oy
     (dataPackets s) (prefersReducedMotion s) (pixelRatio s)
     (nationPath s) (connections s).

Definition set_dataPackets (ps : list DataPacket.t) (s : t) : t :=
  mk (canvas s) (ctx s) (width s) (height s) (mapWidth s) (mapHeight s)
     (offsetX s) (offsetY s) ps (prefersReducedMotion s) (pixelRatio s)
     (nationPath s) (connections s).

Definition set_prefersReducedMotion (b : bool) (s : t) : t :=
  mk (canvas s) (ctx s) (width s) (height s) (mapWidth s) (mapHeight s)
     (offsetX s) (offsetY s) (dataPackets s) b (pixelRatio s)
     (nationPath s) (connections s).

Definition set_nationPath (rings : list GeoJSON.Ring) (s : t) : t :=
  mk (canvas s) (ctx s) (width s) (height s) (mapWidth s) (mapHeight s)
     (offsetX s) (offsetY s) (dataPackets s) (prefersReducedMotion s)
     (pixelRatio s) rings (connections s).

Definition set_connections (cs : list Connection.t) (s : t) : t :=
  mk (canvas s) (ctx s) (width s) (height s) (mapWidth s) (mapHeight s)
     (offsetX s) (offsetY s) (dataPackets s) (prefersReducedMotion s)
     (pixelRatio s) (nationPath s) cs.

(** [extractCoordinates]: every ring of the geometry is pushed. *)
Definition extractCoordinates (g : GeoJSON.Geometry) (s : t) : t :=
  match g with
  | GeoJSON.Polygon rings =>
      set_nationPath (fold_left push rings (nationPath s)) s
  | GeoJSON.MultiPolygon polygons =>
      set_nationPath
        (fold_left (fun acc polygon => fold_left push polygon acc)
                   polygons (nationPath s)) s
  | GeoJSON.OtherGeometry => s
  end.

Definition loadUSBorder (nation : GeoJSON.Feature) (s : t) : t :=
  match nation with
  | GeoJSON.FeatureCollection features =>
      fold_left (fun acc g => extractCoordinates g acc) features s
  | GeoJSON.SingleFeature g => extractCoordinates g s
  end.

(** [generateConnections], for a location list of length [M]: the outer loop
    runs [i] over [0 .. M-1], the inner one [j] over [i+1 .. M-1], and each
    iteration pushes the connection from [i] to [j]. *)
Definition generateConnectionsFor (M : nat) (conns : list Connection.t)
  : list Connection.t :=
  fold_left
    (fun acc i =>
       fold_left (fun acc' j => push acc' (Connection.mk i j))
                 (seq (S i) (M - S i)) acc)
    (seq 0 M) conns.

Definition generateConnections (s : t) : t :=
  set_connections
    (generateConnectionsFor (List.length edgeLocations) (connections s)) s.

Definition usAspectRatio : number :=
  ((US_LON_MAX - US_LON_MIN) / (US_LAT_MAX - US_LAT_MIN))%num.

Definition resize (win : Window.t) (s : t) : t :=
  let w := Window.innerWidth win in
  let h := Window.innerHeight win in
  let s := set_size w h s in
  (* canvas.width and canvas.height: the context is reset *)
  let cv := Canvas.mk (w * pixelRatio s)%num (h * pixelRatio s)%num w h in
  let cx := Context2D.scale (pixelRatio s) (pixelRatio s) Context2D.default in
  let cx := Context2D.set_imageSmoothingEnabled true cx in
  let cx := Context2D.set_imageSmoothingQuality "high" cx in
  let s := set_surface cv cx s in
  let screenAspectRatio := (width s / height s)%num in
  let '(mw, mh) :=
    if (screenAspectRatio >? usAspectRatio)%num then
      let mh := (height s * Fin 0.8)%num in
      let mw := (mh * usAspectRatio)%num in
      (mw, mh)
    else
      let mw := (width s * Fin 0.9)%num in
      let mh := (mw / usAspectRatio)%num in
      (mw, mh) in
  set_projection mw mh
    ((width s - mw) / Fin 2)%num ((height s - mh) / Fin 2)%num s.

Definition latLonToXY (s : t) (lat lon : number) : Point2D.t :=
  let x :=
    (offsetX s + ((lon - US_LON_MIN) / (US_LON_MAX - US_LON_MIN)) * mapWidth s)%num in
  let y :=
    (offsetY s + ((US_LAT_MAX - lat) / (US_LAT_MAX - US_LAT_MIN)) * mapHeight s)%num in
  Point2D.mk x y.

(** The position of a packet at progress [t] between two projected points:
    the quadratic Bezier curve of [drawDataPackets], whose control point is
    centred between them and 50 pixels above the higher of the two. *)
Definition packetPosition (fromPoint toPoint : Point2D.t) (t : number)
  : Point2D.t :=
  let controlX := ((Point2D.x fromPoint + Point2D.x toPoint) / Fin 2)%num in
  let controlY :=
    (Math_min (Point2D.y fromPoint) (Point2D.y toPoint) - Fin 50)%num in
  let x :=
    ((Fin 1 - t) * (Fin 1 - t) * Point2D.x fromPoint
     + Fin 2 * (Fin 1 - t) * t * controlX
     + t * t * Point2D.x toPoint)%num in
  let y :=
    ((Fin 1 - t) * (Fin 1 - t) * Point2D.y fromPoint
     + Fin 2 * (Fin 1 - t) * t * controlY
     + t * t * Point2D.y toPoint)%num in
  Point2D.mk x y.

(** Where a packet is drawn; [None] when one of its indices is outside
    [edgeLocations], in which case reading [.lat] of [undefined] throws. *)
Definition locatePacket (s : t) (packet : DataPacket.t) : option Point2D.t :=
  match array_get edgeLocations (DataPacket.from packet),
        array_get edgeLocations (DataPacket.to packet) with
  | Some from, Some to =>
      let fromPoint :=
        latLonToXY s (EdgeLocation.lat from) (EdgeLocation.lon from) in
      let toPoint :=
        latLonToXY s (EdgeLocation.lat to) (EdgeLocation.lon to) in
      Some (packetPosition fromPoint toPoint (DataPacket.progress packet))
  | _, _ => None
  end.

Section WithRandom.

(** [Math_random k] is the value of the [k]-th call of [Math.random()]; the
    number of calls made so far is threaded through the methods that draw
    random numbers. *)
Variable Math_random : nat -> number.

Definition randomIndex (k : nat) : number :=
  Math_floor (Math_random k * array_length edgeLocations)%num.

(** One packet of [initDataPackets]: the four properties of the literal are
    evaluated in order. *)
Definition newPacket (k : nat) : DataPacket.t :=
  DataPacket.mk
    (randomIndex k)
    (randomIndex (k + 1))
    (Math_random (k + 2))
    (Fin 0.002 + Math_random (k + 3) * Fin 0.003)%num.

Fixpoint pushPackets (numPackets : nat) (packets : list DataPacket.t) (k : nat)
  : list DataPacket.t * nat :=
  match numPackets with
  | O => (packets, k)
  | S n => pushPackets n (push packets (newPacket k)) (k + 4)
  end.

Definition initDataPackets (win : Window.t) (s : t) (k : nat) : t * nat :=
  let numPackets :=
    if (Window.innerWidth win <? Fin 768)%num then 15%nat else 25%nat in
  let '(packets, k') := pushPackets numPackets (dataPackets s) k in
  (set_dataPackets packets s, k').

(** The first half of the body of the [forEach] in [drawDataPackets]: the
    packet advances unless reduced motion is preferred. *)
Definition advancePacket (reducedMotion : bool) (packet : DataPacket.t) (k : nat)
  : DataPacket.t * nat :=
  if negb reducedMotion then
    let progress := (DataPacket.progress packet + DataPacket.speed packet)%num in
    if (progress >=? Fin 1)%num then
      (DataPacket.mk (randomIndex k) (randomIndex (k + 1)) (Fin 0)
                     (DataPacket.speed packet),
       (k + 2)%nat)
    else
      (DataPacket.mk (DataPacket.from packet) (DataPacket.to packet) progress
                     (DataPacket.speed packet),
       k)
  else (packet, k).

(** The [forEach] over the packets.  Packets are mutated in place, so when an
    iteration throws, the packets before it and the one it was working on keep
    their new values and the rest are untouched.  The result is the packet
    array, the positions drawn, how the loop ended and the count of random
    calls. *)
Fixpoint forEachPacket (s : t) (packets : list DataPacket.t) (k : nat)
  : list DataPacket.t * list Point2D.t * Completion * nat :=
  match packets with
  | [] => ([], [], Normal, k)
  | packet :: rest =>
      let '(packet', k') := advancePacket (prefersReducedMotion s) packet k in
      match locatePacket s packet' with
      | None => (packet' :: rest, [], TypeError, k')
      | Some xy =>
          let '(rest', drawn, c, k'') := forEachPacket s rest k' in
          (packet' :: rest', xy :: drawn, c, k'')
      end
  end.

(** [drawDataPackets]: the new state, the count of random calls, the centres
    of the packets drawn and the completion. *)
Definition drawDataPackets (s : t) (k : nat)
  : t * nat * list Point2D.t * Completion :=
  let '(packets, drawn, c, k') := forEachPacket s (dataPackets s) k in
  (set_dataPackets packets s, k', drawn, c).

(** The constructor up to [initDataPackets]; [None] when the canvas gives no
    2D context.  The call of [animate] that ends it is the first [Frame]
    event below. *)
Definition construct (cv : Canvas.t) (context : option Context2D.t)
    (win : Window.t) (nation : GeoJSON.Feature) (k : nat) : option (t * nat) :=
  match context with
  | None => None
  | Some cx =>
      let cx := Context2D.set_imageSmoothingEnabled true cx in
      let cx := Context2D.set_imageSmoothingQuality "high" cx in
      let s :=
        mk cv cx (Fin 0) (Fin 0) (Fin 0) (Fin 0) (Fin 0) (Fin 0) [] 
           (Window.prefersReducedMotion win)
           (or_else (Window.devicePixelRatio win) (Fin 1)) [] [] in
      let s := loadUSBorder nation s in
      let s := generateConnections s in
      let s := resize win s in
      Some (initDataPackets win s k)
  end.

(** What happens to a constructed map: an animation frame, a resize of the
    window, or a change of the reduced-motion preference.  The layers of a
    frame other than the packets read the state and draw; only
    [drawDataPackets] changes it. *)
Inductive Event : Type :=
| Frame
| Resize (win : Window.t)
| MotionChange (matches : bool).

Definition handle (e : Event) (w : t * nat) : t * nat :=
  let '(s, k) := w in
  match e with
  | Frame => fst (fst (drawDataPackets s k))
  | Resize win => (resize win s, k)
  | MotionChange b => (set_prefersReducedMotion b s, k)
  end.

Inductive reachable : t * nat -> Prop :=
| reach_construct cv cx win nation k w :
    construct cv cx win nation k = Some w -> reachable w
| reach_handle e w :
    reachable w -> reachable (handle e w).

End WithRandom.

(** *** The layers of a frame *)

(** [beginPath(); moveTo(a); lineTo(b); stroke()]. *)
Definition strokeSegment (a b : Point2D.t) : list Draw.Command :=
  [Draw.beginPath;
   Draw.moveTo (Point2D.x a) (Point2D.y a);
   Draw.lineTo (Point2D.x b) (Point2D.y b);
   Draw.stroke].

(** [for (let v = start; v <= limit; v += step) body(v)], run for at most
    [fuel] tests of the condition; [None] when they do not suffice. *)
Fixpoint forUpTo (fuel : nat) (v limit step : number)
    (body : number -> list Draw.Command) : option (list Draw.Command) :=
  match fuel with
  | O => None
  | S fuel' =>
      if (v <=? limit)%num then
        match forUpTo fuel' (v + step)%num limit step body with
        | Some rest => Some (body v ++ rest)
        | None => None
        end
      else Some []
  end.

Definition drawWireframeGrid (fuel : nat) (s : t) : option (list Draw.Command) :=
  match
    forUpTo fuel (Fin 25) (Fin 50) (Fin 5)
      (fun lat =>
         strokeSegment (latLonToXY s lat US_LON_MIN) (latLonToXY s lat US_LON_MAX)),
    forUpTo fuel (Fin (-120)) (Fin (-70)) (Fin 10)
      (fun lon =>
         strokeSegment (latLonToXY s US_LAT_MAX lon) (latLonToXY s US_LAT_MIN lon))
  with
  | Some parallels, Some meridians =>
      Some ([Draw.set_strokeStyle "rgba(0, 255, 136, 0.06)";
             Draw.set_lineWidth (Fin 1)]
              ++ parallels ++ meridians)
  | _, _ => None
  end.

(** One ring of the border: nothing for an empty ring; a point of a ring is
    [[lon, lat]]. *)
Definition drawRing (s : t) (ring : GeoJSON.Ring) : list Draw.Command :=
  match ring with
  | [] => []
  | first :: rest =>
      let firstPoint := latLonToXY s (snd first) (fst first) in
      [Draw.beginPath;
       Draw.moveTo (Point2D.x firstPoint) (Point2D.y firstPoint)]
        ++ map (fun v =>
                  let point := latLonToXY s (snd v) (fst v) in
                  Draw.lineTo (Point2D.x point) (Point2D.y point))
               rest
        ++ [Draw.closePath; Draw.stroke]
  end.

Definition drawUSBorder (s : t) : list Draw.Command :=
  [Draw.set_strokeStyle "rgba(0, 255, 136, 0.3)";
   Draw.set_lineWidth (Fin 1.5);
   Draw.set_lineCap "round";
   Draw.set_lineJoin "round"]
    ++ flat_map (drawRing s) (nationPath s).

(** The [forEach] of [drawConnectionLines]: a connection whose index is
    outside [edgeLocations] throws before anything is drawn for it. *)
Fixpoint forEachConnection (s : t) (conns : list Connection.t)
  : list Draw.Command * Completion :=
  match conns with
  | [] => ([], Normal)
  | c :: rest =>
      match nth_error edgeLocations (Connection.from c),
            nth_error edgeLocations (Connection.to c) with
      | Some fromLoc, Some toLoc =>
          let fromPoint :=
            latLonToXY s (EdgeLocation.lat fromLoc) (EdgeLocation.lon fromLoc) in
          let toPoint :=
            latLonToXY s (EdgeLocation.lat toLoc) (EdgeLocation.lon toLoc) in
          let '(cmds, completion) := forEachConnection s rest in
          (strokeSegment fromPoint toPoint ++ cmds, completion)
      | _, _ => ([], TypeError)
      end
  end.

Definition drawConnectionLines (s : t) : list Draw.Command * Completion :=
  let '(cmds, completion) := forEachConnection s (connections s) in
  ([Draw.set_strokeStyle colors.line; Draw.set_lineWidth (Fin 1)] ++ cmds,
   completion).

Section WithMath.

(** [Math.sin] and [Math.PI], supplied by the host. *)
Variable Math_sin : number -> number.
Variable Math_PI : number.

(** The radius of the marker of the location at [index], [time] seconds into
    the epoch. *)
Definition markerSize (time : number) (index : nat) : number :=
  let pulse :=
    (Math_sin (time * Fin 2 + of_nat index * Fin 0.3) * Fin 0.5 + Fin 0.5)%num in
  (Fin 3 + pulse * Fin 2)%num.

Definition drawMarker (s : t) (time : number) (loc : EdgeLocation.t) (index : nat)
  : list Draw.Command :=
  let point := latLonToXY s (EdgeLocation.lat loc) (EdgeLocation.lon loc) in
  let size := markerSize time index in
  let px := Point2D.x point in
  let py := Point2D.y point in
  [Draw.beginPath;
   Draw.arc px py (size * Fin 2.5)%num (Fin 0) (Math_PI * Fin 2)%num;
   Draw.set_fillStyle
     (Draw.Radial
        (Draw.createRadialGradient px py (Fin 0) px py (size * Fin 2.5)%num
           [(Fin 0, colors.glow); (Fin 1, "rgba(0, 0, 0, 0)"%string)]));
   Draw.fill;
   Draw.beginPath;
   Draw.arc px py size (Fin 0) (Math_PI * Fin 2)%num;
   Draw.set_fillStyle (Draw.Color colors.main);
   Draw.fill].

Fixpoint forEachLocation (s : t) (time : number) (locs : list EdgeLocation.t)
    (index : nat) : list Draw.Command :=
  match locs with
  | [] => []
  | loc :: rest =>
      drawMarker s time loc index ++ forEachLocation s time rest (S index)
  end.

(** [drawEdgeLocations], with [now] the value of [Date.now()]. *)
Definition drawEdgeLocations (now : number) (s : t) : list Draw.Command :=
  let time := (now * Fin 0.001)%num in
  forEachLocation s time edgeLocations 0.

(** What [drawDataPackets] draws for a packet at [(px, py)]: the dot, then
    its trail. *)
Definition drawPacketAt (p : Point2D.t) : list Draw.Command :=
  let px := Point2D.x p in
  let py := Point2D.y p in
  [Draw.beginPath;
   Draw.arc px py (Fin 2) (Fin 0) (Math_PI * Fin 2)%num;
   Draw.set_fillStyle (Draw.Color colors.main);
   Draw.fill;
   Draw.beginPath;
   Draw.arc px py (Fin 5) (Fin 0) (Math_PI * Fin 2)%num;
   Draw.set_fillStyle
     (Draw.Radial
        (Draw.createRadialGradient px py (Fin 0) px py (Fin 5)
           [(Fin 0, colors.glow); (Fin 1, "rgba(0, 0, 0, 0)"%string)]));
   Draw.fill].

(** What a call of [animate] did. *)
Record FrameResult : Type := mkFrameResult {
  after : t;
  randomCalls : nat;
  drawn : list Draw.Command;
  completion : Completion;
  rescheduled : bool        (* [requestAnimationFrame(this.animate)] was reached *)
}.

(** [animate]: the surface is cleared and the five layers are drawn in
    order; a layer that throws ends the frame before the next one and before
    the frame is scheduled again.  [None] when [fuel] does not suffice for
    the loops of the grid. *)
Definition animate (Math_random : nat -> number) (fuel : nat) (now : number)
    (s : t) (k : nat) : option FrameResult :=
  match drawWireframeGrid fuel s with
  | None => None
  | Some grid =>
      let cmds :=
        [Draw.clearRect (Fin 0) (Fin 0) (width s) (height s)]
          ++ grid ++ drawUSBorder s in
      let '(lines, c) := drawConnectionLines s in
      match c with
      | TypeError => Some (mkFrameResult s k (cmds ++ lines) TypeError false)
      | Normal =>
          let cmds := cmds ++ lines ++ drawEdgeLocations now s in
          let '(s', k', positions, c') := drawDataPackets Math_random s k in
          let cmds := cmds ++ flat_map drawPacketAt positions in
          match c' with
          | TypeError => Some (mkFrameResult s' k' cmds TypeError false)
          | Normal => Some (mkFrameResult s' k' cmds Normal true)
          end
      end
  end.

End WithMath.

End USMap.

Import USMap.

(** ** Vocabulary of the properties *)

Definition finite (a : number) : Prop :=
  match a with Fin _ => True | _ => False end.

(** The projection parameters of [s] are the finite numbers [mw mh ox oy]. *)
Definition projectionIs (s : USMap.t) (mw mh ox oy : Q) : Prop :=
  mapWidth s = Fin mw /\ mapHeight s = Fin mh /\
  offsetX s = Fin ox /\ offsetY s = Fin oy.

(** A map whose projection parameters are the given finite numbers. *)
Definition withProjection (mw mh ox oy : Q) (s : USMap.t) : USMap.t :=
  set_projection (Fin mw) (Fin mh) (Fin ox) (Fin oy) s.

(** The viewport of the window is finite and non-negative, of size [w] by
    [h]. *)
Definition viewportIs (win : Window.t) (w h : Q) : Prop :=
  Window.innerWidth win = Fin w /\ Window.innerHeight win = Fin h /\
  0 <= w /\ 0 <= h.

(** Two connections join the same unordered pair of locations. *)
Definition sameUnorderedPair (c d : Connection.t) : Prop :=
  (Connection.from c = Connection.from d /\ Connection.to c = Connection.to d) \/
  (Connection.from c = Connection.to d /\ Connection.to c = Connection.from d).

(** The connections pushed for [M] locations while the outer loop runs over
    [n] indices from [a]. *)
Definition meshFrom (M a n : nat) : list Connection.t :=
  flat_map (fun i => map (Connection.mk i) (seq (S i) (M - S i))) (seq a n).

(** A number in [[0,1)]. *)
Definition unitInterval (a : number) : Prop :=
  match a with Fin q => 0 <= q < 1 | _ => False end.

(** An integer index inside [edgeLocations]. *)
Definition validIndex (a : number) : Prop :=
  exists i : nat, a = of_nat i /\ (i < List.length edgeLocations)%nat.

(** A speed as [initDataPackets] draws it. *)
Definition validSpeed (a : number) : Prop :=
  match a with Fin q => 0.002 <= q < 0.005 | _ => False end.

Definition validPacket (p : DataPacket.t) : Prop :=
  validIndex (DataPacket.from p) /\ validIndex (DataPacket.to p) /\
  unitInterval (DataPacket.progress p) /\ validSpeed (DataPacket.speed p).

(** [Math.random()] returns a number in [[0,1)]. *)
Definition unitRandom (rnd : nat -> number) : Prop :=
  forall k, unitInterval (rnd k).

Definition samePoint (a b : Point2D.t) : Prop :=
  Point2D.x a =~ Point2D.x b /\ Point2D.y a =~ Point2D.y b.

(** [N] animation frames in a row. *)
Definition frames (rnd : nat -> number) (N : nat) (w : USMap.t * nat)
  : USMap.t * nat :=
  Nat.iter N (handle rnd Frame) w.

(** *** Vocabulary of the drawing layers *)

(** A point of the fixed geographic bounding box. *)
Definition insideBox (lat lon : Q) : Prop :=
  24 <= lat <= 50 /\ -125 <= lon <= -66.

(** A finite pixel inside the rectangle from [(ox, oy)] of size [mw] by
    [mh], allowed to rise [above] pixels over its top. *)
Definition insideRect (mw mh ox oy above : Q) (p : Point2D.t) : Prop :=
  match Point2D.x p, Point2D.y p with
  | Fin px, Fin py => ox <= px <= ox + mw /\ oy - above <= py <= oy + mh
  | _, _ => False
  end.

(** The rings of a geometry and of a feature, in the order of the data. *)
Definition ringsOfGeometry (g : GeoJSON.Geometry) : list GeoJSON.Ring :=
  match g with
  | GeoJSON.Polygon rings => rings
  | GeoJSON.MultiPolygon polygons => List.concat polygons
  | GeoJSON.OtherGeometry => []
  end.

Definition ringsOf (nation : GeoJSON.Feature) : list GeoJSON.Ring :=
  match nation with
  | GeoJSON.FeatureCollection features => flat_map ringsOfGeometry features
  | GeoJSON.SingleFeature g => ringsOfGeometry g
  end.

(** The projection of a vertex [[lon, lat]] of the border. *)
Definition projectVertex (s : USMap.t) (v : number * number) : Point2D.t :=
  latLonToXY s (snd v) (fst v).

(** The points a list of commands moves or draws a line to. *)
Definition pathPoints (cmds : list Draw.Command) : list Point2D.t :=
  flat_map (fun c =>
              match c with
              | Draw.moveTo px py | Draw.lineTo px py => [Point2D.mk px py]
              | _ => []
              end) cmds.

(** The straight segments a list of commands traces, each from the current
    point of the path to the target of a [lineTo]. *)
Fixpoint segmentsFrom (current : option Point2D.t) (cmds : list Draw.Command)
  : list (Point2D.t * Point2D.t) :=
  match cmds with
  | [] => []
  | Draw.moveTo px py :: rest => segmentsFrom (Some (Point2D.mk px py)) rest
  | Draw.lineTo px py :: rest =>
      match current with
      | Some a => (a, Point2D.mk px py) :: segmentsFrom (Some (Point2D.mk px py)) rest
      | None => segmentsFrom (Some (Point2D.mk px py)) rest
      end
  | Draw.beginPath :: rest => segmentsFrom None rest
  | _ :: rest => segmentsFrom current rest
  end.

Definition segmentsOf (cmds : list Draw.Command) : list (Point2D.t * Point2D.t) :=
  segmentsFrom None cmds.

(** The circles a list of commands traces: centre and radius. *)
Definition arcsOf (cmds : list Draw.Command) : list (Point2D.t * number) :=
  flat_map (fun c =>
              match c with
              | Draw.arc px py r _ _ => [(Point2D.mk px py, r)]
              | _ => []
              end) cmds.

Definition isStroke (c : Draw.Command) : bool :=
  match c with Draw.stroke => true | _ => false end.

Definition isClosePath (c : Draw.Command) : bool :=
  match c with Draw.closePath => true | _ => false end.

Definition isLineTo (c : Draw.Command) : bool :=
  match c with Draw.lineTo _ _ => true | _ => false end.

Definition nonEmpty {A : Type} (l : list A) : bool :=
  match l with [] => false | _ => true end.

(** The [lineTo] calls of a ring after its first vertex. *)
Definition lineTos (s : USMap.t) (vs : list (number * number))
  : list Draw.Command :=
  map (fun v =>
         let point := latLonToXY s (snd v) (fst v) in
         Draw.lineTo (Point2D.x point) (Point2D.y point)) vs.

(** The segments between consecutive vertices of a ring. *)
Definition ringSegments (s : USMap.t) (ring : GeoJSON.Ring)
  : list (Point2D.t * Point2D.t) :=
  let ps := map (projectVertex s) ring in combine ps (tl ps).

(** A vertex [[lon, lat]] of finite coordinates inside the bounding box. *)
Definition vertexInBox (v : number * number) : Prop :=
  match snd v, fst v with
  | Fin lat, Fin lon => insideBox lat lon
  | _, _ => False
  end.

(** The grid line of a latitude, from west to east, and of a longitude, from
    north to south. *)
Definition parallel (s : USMap.t) (lat : Q) : Point2D.t * Point2D.t :=
  (latLonToXY s (Fin lat) (Fin (-125)), latLonToXY s (Fin lat) (Fin (-66))).

Definition meridian (s : USMap.t) (lon : Q) : Point2D.t * Point2D.t :=
  (latLonToXY s (Fin 50) (Fin lon), latLonToXY s (Fin 24) (Fin lon)).

(** Where the location at index [i] is drawn. *)
Definition locationPoint (s : USMap.t) (i : nat) : Point2D.t :=
  match nth_error edgeLocations i with
  | Some loc => latLonToXY s (EdgeLocation.lat loc) (EdgeLocation.lon loc)
  | None => Point2D.mk NaN NaN
  end.

Definition connectionSegment (s : USMap.t) (c : Connection.t)
  : Point2D.t * Point2D.t :=
  (locationPoint s (Connection.from c), locationPoint s (Connection.to c)).

(** Both ends of the connection are indices of [edgeLocations]. *)
Definition validConnection (c : Connection.t) : Prop :=
  (Connection.from c < List.length edgeLocations)%nat /\
  (Connection.to c < List.length edgeLocations)%nat.

(** A location of finite coordinates inside the bounding box. *)
Definition locationInBox (loc : EdgeLocation.t) : Prop :=
  match EdgeLocation.lat loc, EdgeLocation.lon loc with
  | Fin lat, Fin lon => insideBox lat lon
  | _, _ => False
  end.



(** The step of this packet wraps: its advanced progress reaches 1. *)
Definition wraps (p : DataPacket.t) : bool :=
  (DataPacket.progress p + DataPacket.speed p >=? Fin 1)%num.

(** [Math.sin] maps finite numbers into [[-1, 1]]. *)
Definition boundedSine (Math_sin : number -> number) : Prop :=
  forall a, finite a ->
            match Math_sin a with Fin v => -1 <= v <= 1 | _ => False end.

(** A triangle wave of period 4, standing in for the sine in examples. *)
Definition triangleWave (a : number) : number :=
  match a with
  | Fin q =>
      let r := q - inject_Z (4 * Qfloor (q / 4)) in
      Fin (if Qle_bool r 1 then r
           else if Qle_bool r 3 then 2 - r
                else r - 4)
  | _ => NaN
  end.

(** *** A sample run

    A random source that cycles through four values, a desktop window and a
    triangular border; the map the constructor builds from them holds 25
    packets that all wrap on their first frame. *)

Definition sampleRandom (k : nat) : number :=
  nth (k mod 4) [Fin 0.25; Fin 0.75; Fin 0.999; Fin 0.5] (Fin 0).

Definition sampleWindow : Window.t :=
  Window.mk (Fin 1280) (Fin 720) (Fin 2) false.

Definition sampleCanvas : Canvas.t :=
  Canvas.mk (Fin 300) (Fin 150) (Fin 300) (Fin 150).

Definition sampleNation : GeoJSON.Feature :=
  GeoJSON.SingleFeature
    (GeoJSON.Polygon
       [[(Fin (-125), Fin 24); (Fin (-66), Fin 24); (Fin (-66), Fin 50)]]).

Definition blankMap : USMap.t :=
  USMap.mk sampleCanvas Context2D.default (Fin 0) (Fin 0) (Fin 0) (Fin 0)
           (Fin 0) (Fin 0) [] false (Fin 1) [] [].

Definition sampleWorld : USMap.t * nat :=
  match construct sampleRandom sampleCanvas (Some Context2D.default)
                  sampleWindow sampleNation 0 with
  | Some w => w
  | None => (blankMap, 0%nat)
  end.

(** The sample map once the user prefers reduced motion. *)
Definition sampleReduced : USMap.t :=
  set_prefersReducedMotion true (fst sampleWorld).

(** The blank map with the sample border loaded and a projection of 590 by
    260 pixels placed at (10, 20). *)
Definition sampleProjected : USMap.t :=
  withProjection 590 260 10 20 (loadUSBorder sampleNation blankMap).

(** The same map with three connections, the second of which names a
    location that does not exist. *)
Definition sampleBadMesh : USMap.t :=
  set_connections
    [Connection.mk 0 1; Connection.mk 2 28; Connection.mk 3 4]
    sampleProjected.

(** The same map, under reduced motion, with three packets, the second of
    which starts from a location that does not exist. *)
Definition sampleBadPackets : USMap.t :=
  set_prefersReducedMotion true
    (set_dataPackets
       [DataPacket.mk (Fin 5) (Fin 21) (Fin 0.5) (Fin 0.004);
        DataPacket.mk (Fin 28) (Fin 3) (Fin 0.25) (Fin 0.003);
        DataPacket.mk (Fin 1) (Fin 2) (Fin 0.75) (Fin 0.002)]
       sampleProjected).

(** ** Comparisons and indexing on finite numbers *)

Lemma gt_Fin p q : (Fin p >? Fin q)%num = true <-> q < p.
Proof.
  unfold gt, compare. rewrite Qgt_alt.
  destruct (p ?= q); split; congruence.
Qed.

Lemma lt_Fin p q : (Fin p <? Fin q)%num = true <-> p < q.
Proof.
  unfold lt, compare. rewrite Qlt_alt.
  destruct (p ?= q); split; congruence.
Qed.

Lemma ge_Fin p q : (Fin p >=? Fin q)%num = true <-> q <= p.
Proof.
  unfold ge, compare. rewrite Qle_alt, <- (Qcompare_antisym q p).
  destruct (q ?= p); simpl; split; congruence.
Qed.

Lemma array_get_of_nat {A} (arr : list A) i :
  array_get arr (of_nat i) = nth_error arr i.
Proof.
  unfold array_get, of_nat. rewrite Qfloor_Z.
  rewrite Qeq_bool_refl. simpl.
  replace (0 <=? Z.of_nat i)%Z with true by (symmetry; apply Z.leb_le; lia).
  now rewrite Nat2Z.id.
Qed.

Lemma withProjection_is mw mh ox oy s :
  projectionIs (withProjection mw mh ox oy s) mw mh ox oy.
Proof. repeat split. Qed.

(** ** Projection *)

Section Projection.

Variables (s : USMap.t) (mw mh ox oy : Q).
Hypothesis Hproj : projectionIs s mw mh ox oy.

(** On finite coordinates the projection is finite. *)
Lemma latLonToXY_finite lat lon :
  latLonToXY s (Fin lat) (Fin lon)
  = Point2D.mk (Fin (ox + ((lon - (-125)) / (-66 - (-125))) * mw))
               (Fin (oy + ((50 - lat) / (50 - 24)) * mh)).
Proof.
  destruct Hproj as (Hw & Hh & Hx & Hy).
  unfold latLonToXY. rewrite Hw, Hh, Hx, Hy. reflexivity.
Qed.

(** It is affine, with slope [mapWidth / 59] in longitude and
    [- mapHeight / 26] in latitude. *)
Lemma x_slope lon :
  ox + ((lon - (-125)) / (-66 - (-125))) * mw == ox + (lon + 125) * mw * (1 # 59).
Proof. field. Qed.

Lemma y_slope lat :
  oy + ((50 - lat) / (50 - 24)) * mh == oy + (50 - lat) * mh * (1 # 26).
Proof. field. Qed.

End Projection.

(** C1.  For every latitude and longitude the projection returns
    [x = offsetX + ((lon - LON_MIN) / (LON_MAX - LON_MIN)) * mapWidth] and
    [y = offsetY + ((LAT_MAX - lat) / (LAT_MAX - LAT_MIN)) * mapHeight] with
    the bounds 24, 50, -125 and -66.  On finite numbers the result is finite;
    longitude is mapped affinely, [LON_MIN] to [offsetX] and [LON_MAX] to
    [offsetX + mapWidth]; latitude is mapped affinely and inverted, [LAT_MIN]
    to [offsetY + mapHeight] and [LAT_MAX] to [offsetY]; nothing is clamped:
    with a positive map size, a point beyond a bound of the box projects
    beyond the matching side of the rectangle. *)
Theorem latLonToXY_linear_unclamped :
  (forall s lat lon,
      latLonToXY s lat lon
      = Point2D.mk
          (offsetX s
           + ((lon - Fin (-125)) / (Fin (-66) - Fin (-125))) * mapWidth s)%num
          (offsetY s
           + ((Fin 50 - lat) / (Fin 50 - Fin 24)) * mapHeight s)%num) /\
  (forall s0 mw mh ox oy,
      let s := withProjection mw mh ox oy s0 in
      let X lon := Point2D.x (latLonToXY s (Fin 0) (Fin lon)) in
      let Y lat := Point2D.y (latLonToXY s (Fin lat) (Fin 0)) in
      (forall lat lon,
          latLonToXY s (Fin lat) (Fin lon)
          = Point2D.mk (Fin (ox + ((lon - (-125)) / (-66 - (-125))) * mw))
                       (Fin (oy + ((50 - lat) / (50 - 24)) * mh)) /\
          Point2D.x (latLonToXY s (Fin lat) (Fin lon)) = X lon /\
          Point2D.y (latLonToXY s (Fin lat) (Fin lon)) = Y lat) /\
      X (-125) =~ Fin ox /\ X (-66) =~ Fin (ox + mw) /\
      Y 24 =~ Fin (oy + mh) /\ Y 50 =~ Fin oy /\
      (forall c a b,
          X ((1 - c) * a + c * b) =~ (Fin (1 - c) * X a + Fin c * X b)%num /\
          Y ((1 - c) * a + c * b) =~ (Fin (1 - c) * Y a + Fin c * Y b)%num) /\
      (forall lon, 0 < mw ->
          (-66 < lon -> (X lon >? Fin (ox + mw))%num = true) /\
          (lon < -125 -> (X lon <? Fin ox)%num = true)) /\
      (forall lat, 0 < mh ->
          (50 < lat -> (Y lat <? Fin oy)%num = true) /\
          (lat < 24 -> (Y lat >? Fin (oy + mh))%num = true))).
Proof.
  split; [reflexivity|].
  intros s0 mw mh ox oy s X Y.
  assert (HX : forall lon, X lon = Fin (ox + ((lon - (-125)) / (-66 - (-125))) * mw))
    by reflexivity.
  assert (HY : forall lat, Y lat = Fin (oy + ((50 - lat) / (50 - 24)) * mh))
    by reflexivity.
  repeat split.
  - rewrite HX. simpl. field.
  - rewrite HX. simpl. field.
  - rewrite HY. simpl. field.
  - rewrite HY. simpl. field.
  - rewrite !HX. simpl. field.
  - rewrite !HY. simpl. field.
  - intros Hlon. rewrite HX. apply gt_Fin. rewrite x_slope. nra.
  - intros Hlon. rewrite HX. apply lt_Fin. rewrite x_slope. nra.
  - intros Hlat. rewrite HY. apply lt_Fin. rewrite y_slope. nra.
  - intros Hlat. rewrite HY. apply gt_Fin. rewrite y_slope. nra.
Qed.

(** On a map 590 pixels wide and 260 high placed at (10, 20), longitude -60
    lies right of the rectangle and latitude 60 above it. *)
Lemma latLonToXY_linear_unclamped_witness :
  0 < 590 /\ -66 < -60 /\ 0 < 260 /\ 50 < 60 /\
  (Point2D.x (latLonToXY (withProjection 590 260 10 20 blankMap) (Fin 0) (Fin (-60)))
   >? Fin (10 + 590))%num = true /\
  (Point2D.y (latLonToXY (withProjection 590 260 10 20 blankMap) (Fin 60) (Fin 0))
   <? Fin 20)%num = true.
Proof.
  do 4 (split; [reflexivity|]).
  destruct latLonToXY_linear_unclamped as [_ H].
  destruct (H blankMap 590 260 10 20) as (_ & _ & _ & _ & _ & _ & Hx & Hy).
  split.
  - exact (proj1 (Hx (-60) eq_refl) eq_refl).
  - exact (proj1 (Hy 60 eq_refl) eq_refl).
Defined.

(** ** Resize *)

Lemma usAspectRatio_value : usAspectRatio = Fin ((-66 - (-125)) / (50 - 24)).
Proof. reflexivity. Qed.

(** The branch of [resize] on a viewport of finite, non-negative size.  With
    a height of zero the quotient is [Infinity] or [NaN], and the comparison
    still agrees with the cross-multiplied one. *)
Lemma screen_wider w h :
  0 <= w -> 0 <= h ->
  ((Fin w / Fin h >? usAspectRatio)%num = true <-> 59 * h < 26 * w).
Proof.
  intros Hw Hh. rewrite usAspectRatio_value. unfold div.
  destruct (Qcompare_spec h 0) as [E | E | E].
  - destruct (Qcompare_spec w 0) as [E' | E' | E']; unfold gt; simpl.
    + split; [discriminate | lra].
    + exfalso; lra.
    + split; [lra | reflexivity].
  - exfalso; lra.
  - rewrite gt_Fin.
    assert (E1 : w == (w / h) * h) by (field; lra).
    assert (E2 : (-66 - (-125)) / (50 - 24) == 59 # 26) by reflexivity.
    rewrite E2. split; intros H; nra.
Qed.

Lemma resize_finite win s w h :
  viewportIs win w h ->
  exists mw mh,
    projectionIs (resize win s) mw mh ((w - mw) / 2) ((h - mh) / 2) /\
    width (resize win s) = Fin w /\ height (resize win s) = Fin h /\
    (59 * h < 26 * w -> mh == h * 0.8 /\ mw == mh * (59 # 26)) /\
    (26 * w <= 59 * h -> mw == w * 0.9 /\ mh == mw * (26 # 59)).
Proof.
  intros (Ew & Eh & Hw & Hh). unfold resize. rewrite Ew, Eh. cbv zeta.
  cbn [width height set_size set_surface].
  destruct (Fin w / Fin h >? usAspectRatio)%num eqn:E.
  - apply screen_wider in E; trivial.
    exists (h * 0.8 * ((-66 - (-125)) / (50 - 24))), (h * 0.8).
    repeat split; try lra.
  - assert (E' : ~ 59 * h < 26 * w).
    { intros H. apply screen_wider in H; trivial. congruence. }
    exists (w * 0.9), (w * 0.9 / ((-66 - (-125)) / (50 - 24))).
    repeat split; try lra.
Qed.

(** The map never exceeds the viewport and is centred in it. *)
Lemma resize_nonneg win s w h :
  viewportIs win w h ->
  exists mw mh ox oy,
    projectionIs (resize win s) mw mh ox oy /\
    0 <= mw <= w /\ 0 <= mh <= h /\
    2 * ox == w - mw /\ 2 * oy == h - mh.
Proof.
  intros Hv. destruct (resize_finite win s w h Hv)
    as (mw & mh & Hp & _ & _ & Hwide & Htall).
  destruct Hv as (_ & _ & Hw & Hh).
  exists mw, mh, ((w - mw) / 2), ((h - mh) / 2).
  split; [exact Hp|].
  destruct (Qlt_le_dec (59 * h) (26 * w)) as [H | H].
  - destruct (Hwide H) as [E1 E2]. repeat split; try (field; fail); lra.
  - destruct (Htall H) as [E1 E2]. repeat split; try (field; fail); lra.
Qed.

Lemma resize_idempotent win win' s :
  Window.innerWidth win' = Window.innerWidth win ->
  Window.innerHeight win' = Window.innerHeight win ->
  resize win' (resize win s) = resize win s.
Proof.
  intros Ew Eh. unfold resize. rewrite Ew, Eh. cbv zeta.
  cbn [width height set_size set_surface pixelRatio].
  destruct (Window.innerWidth win / Window.innerHeight win >? usAspectRatio)%num;
    reflexivity.
Qed.

(** [resize] leaves the packets, the preference, the pixel ratio, the border
    and the connections as they are. *)
Lemma resize_keeps win s :
  dataPackets (resize win s) = dataPackets s /\
  prefersReducedMotion (resize win s) = prefersReducedMotion s /\
  pixelRatio (resize win s) = pixelRatio s /\
  nationPath (resize win s) = nationPath s /\
  connections (resize win s) = connections s.
Proof.
  unfold resize. cbv zeta.
  match goal with |- context [if ?c then _ else _] => destruct c end;
    repeat split.
Qed.

(** C6.  The projection is monotonic.  A resize on a viewport of finite,
    non-negative size leaves finite, non-negative [mapWidth] and [mapHeight];
    and with such parameters, for any two points, a longitude that is not
    smaller gives an [x] that is not smaller, and a latitude that is not
    smaller gives a [y] that is not larger. *)
Theorem latLonToXY_monotone :
  (forall win s w h,
      viewportIs win w h ->
      exists mw mh ox oy,
        projectionIs (resize win s) mw mh ox oy /\ 0 <= mw /\ 0 <= mh) /\
  (forall s mw mh ox oy,
      projectionIs s mw mh ox oy -> 0 <= mw -> 0 <= mh ->
      forall lat1 lon1 lat2 lon2,
        (lon1 <= lon2 ->
         (Point2D.x (latLonToXY s (Fin lat2) (Fin lon2))
          >=? Point2D.x (latLonToXY s (Fin lat1) (Fin lon1)))%num = true) /\
        (lat1 <= lat2 ->
         (Point2D.y (latLonToXY s (Fin lat1) (Fin lon1))
          >=? Point2D.y (latLonToXY s (Fin lat2) (Fin lon2)))%num = true)).
Proof.
  split.
  - intros win s w h Hv.
    destruct (resize_nonneg win s w h Hv) as (mw & mh & ox & oy & Hp & Hmw & Hmh & _).
    exists mw, mh, ox, oy. split; [exact Hp | split; [apply Hmw | apply Hmh]].
  - intros s mw mh ox oy Hp Hmw Hmh lat1 lon1 lat2 lon2.
    rewrite !(latLonToXY_finite s mw mh ox oy Hp). simpl Point2D.x. simpl Point2D.y.
    split; intros H; apply ge_Fin.
    + rewrite !x_slope. nra.
    + rewrite !y_slope. nra.
Qed.

(** New York and Los Angeles on the sample window after a resize: the city
    further east is drawn further right, the one further north higher. *)
Lemma latLonToXY_monotone_witness :
  viewportIs sampleWindow 1280 720 /\
  -118.24 <= -74.01 /\ 34.05 <= 40.71 /\
  (Point2D.x (latLonToXY (resize sampleWindow blankMap) (Fin 40.71) (Fin (-74.01)))
   >=? Point2D.x (latLonToXY (resize sampleWindow blankMap) (Fin 34.05) (Fin (-118.24))))%num
  = true /\
  (Point2D.y (latLonToXY (resize sampleWindow blankMap) (Fin 34.05) (Fin (-118.24)))
   >=? Point2D.y (latLonToXY (resize sampleWindow blankMap) (Fin 40.71) (Fin (-74.01))))%num
  = true.
Proof.
  assert (Hv : viewportIs sampleWindow 1280 720).
  { repeat split; discriminate. }
  assert (Hlon : -118.24 <= -74.01) by discriminate.
  assert (Hlat : 34.05 <= 40.71) by discriminate.
  do 3 (split; [assumption|]).
  destruct latLonToXY_monotone as [Hresize Hmono].
  destruct (Hresize sampleWindow blankMap 1280 720 Hv)
    as (mw & mh & ox & oy & Hp & Hmw & Hmh).
  split.
  - exact (proj1 (Hmono _ mw mh ox oy Hp Hmw Hmh 34.05 (-118.24) 40.71 (-74.01)) Hlon).
  - exact (proj2 (Hmono _ mw mh ox oy Hp Hmw Hmh 34.05 (-118.24) 40.71 (-74.01)) Hlat).
Defined.

(** C7.  After a resize on a viewport of any finite, non-negative width and
    height, the four corners of the bounding box project onto the four corners
    of the rectangle from [(offsetX, offsetY)] of size [mapWidth] by
    [mapHeight], hence inside it; the rectangle itself is centred in the
    viewport, with equal margins on opposite sides, and does not leave it. *)
Theorem resize_corners_inside :
  forall win s w h,
    viewportIs win w h ->
    exists mw mh ox oy,
      projectionIs (resize win s) mw mh ox oy /\
      (forall lat lon,
          In lat [24; 50] -> In lon [-125; -66] ->
          exists px py,
            latLonToXY (resize win s) (Fin lat) (Fin lon)
            = Point2D.mk (Fin px) (Fin py) /\
            ox <= px <= ox + mw /\ oy <= py <= oy + mh /\
            (lon = -125 -> px == ox) /\ (lon = -66 -> px == ox + mw) /\
            (lat = 50 -> py == oy) /\ (lat = 24 -> py == oy + mh)) /\
      0 <= mw /\ 0 <= mh /\
      0 <= ox /\ ox + mw <= w /\ 0 <= oy /\ oy + mh <= h /\
      w - (ox + mw) == ox /\ h - (oy + mh) == oy.
Proof.
  intros win s w h Hv.
  destruct (resize_nonneg win s w h Hv)
    as (mw & mh & ox & oy & Hp & Hmw & Hmh & Hox & Hoy).
  exists mw, mh, ox, oy. split; [exact Hp|]. split.
  - intros lat lon Hlat Hlon.
    rewrite (latLonToXY_finite _ mw mh ox oy Hp). eexists. eexists.
    split; [reflexivity|].
    rewrite x_slope, y_slope.
    simpl in Hlat, Hlon.
    destruct Hlat as [<- | [<- | []]]; destruct Hlon as [<- | [<- | []]];
      repeat split;
      try match goal with
          | |- _ = _ -> _ => intros E; try discriminate E
          end;
      lra.
  - repeat split; lra.
Qed.

(** A portrait viewport of 400 by 800: the south-east corner of the box lies
    in the rectangle. *)
Lemma resize_corners_inside_witness :
  viewportIs (Window.mk (Fin 400) (Fin 800) (Fin 3) true) 400 800 /\
  exists mw mh ox oy px py,
    projectionIs (resize (Window.mk (Fin 400) (Fin 800) (Fin 3) true) blankMap)
                 mw mh ox oy /\
    latLonToXY (resize (Window.mk (Fin 400) (Fin 800) (Fin 3) true) blankMap)
               (Fin 24) (Fin (-66))
    = Point2D.mk (Fin px) (Fin py) /\
    ox <= px <= ox + mw /\ oy <= py <= oy + mh.
Proof.
  assert (Hv : viewportIs (Window.mk (Fin 400) (Fin 800) (Fin 3) true) 400 800).
  { repeat split; discriminate. }
  split; [exact Hv|].
  destruct (resize_corners_inside _ blankMap 400 800 Hv)
    as (mw & mh & ox & oy & Hp & Hc & _).
  destruct (Hc 24 (-66) (or_introl eq_refl) (or_intror (or_introl eq_refl)))
    as (px & py & E & Hx & Hy & _).
  exists mw, mh, ox, oy, px, py. repeat split; assumption || apply Hp || apply Hx || apply Hy.
Defined.

(** C8.  [resize] is idempotent: invoked again for the same viewport it
    leaves the whole state of the renderer, canvas and context included, as
    the first invocation left it, so [mapWidth], [mapHeight], [offsetX] and
    [offsetY] keep their values.  Any invocation leaves the packets, the
    reduced-motion flag, the pixel ratio, the border and the connections
    untouched, and what it stores depends on the viewport and the stored
    pixel ratio alone. *)
Theorem resize_idempotent_and_framed :
  forall win s,
    let s1 := resize win s in
    let s2 := resize win s1 in
    s2 = s1 /\
    (mapWidth s2 = mapWidth s1 /\ mapHeight s2 = mapHeight s1 /\
     offsetX s2 = offsetX s1 /\ offsetY s2 = offsetY s1) /\
    (dataPackets s1 = dataPackets s /\
     prefersReducedMotion s1 = prefersReducedMotion s /\
     pixelRatio s1 = pixelRatio s /\
     nationPath s1 = nationPath s /\
     connections s1 = connections s) /\
    (forall win' s',
        Window.innerWidth win' = Window.innerWidth win ->
        Window.innerHeight win' = Window.innerHeight win ->
        pixelRatio s' = pixelRatio s ->
        let t1 := resize win' s' in
        canvas t1 = canvas s1 /\ ctx t1 = ctx s1 /\
        width t1 = width s1 /\ height t1 = height s1 /\
        mapWidth t1 = mapWidth s1 /\ mapHeight t1 = mapHeight s1 /\
        offsetX t1 = offsetX s1 /\ offsetY t1 = offsetY s1).
Proof.
  intros win s s1 s2.
  assert (E : s2 = s1) by (apply resize_idempotent; reflexivity).
  split; [exact E|]. split; [rewrite E; repeat split|].
  split; [apply resize_keeps|].
  intros win' s' Ew Eh Ep t1. unfold t1, s1, resize. rewrite Ew, Eh. cbv zeta.
  cbn [width height set_size set_surface pixelRatio]. rewrite Ep.
  destruct (Window.innerWidth win / Window.innerHeight win >? usAspectRatio)%num;
    repeat split.
Qed.

(** Resizing the sample map, with its packets and connections, stores the
    same projection as resizing a blank map of the same pixel ratio. *)
Lemma resize_idempotent_and_framed_witness :
  pixelRatio (set_size (Fin 1) (Fin 1) (fst sampleWorld)) = pixelRatio (fst sampleWorld) /\
  resize sampleWindow (resize sampleWindow (fst sampleWorld))
  = resize sampleWindow (fst sampleWorld) /\
  mapWidth (resize (Window.mk (Fin 1280) (Fin 720) (Fin 1) true)
                   (set_size (Fin 1) (Fin 1) (fst sampleWorld)))
  = mapWidth (resize sampleWindow (fst sampleWorld)).
Proof.
  split; [reflexivity|].
  destruct (resize_idempotent_and_framed sampleWindow (fst sampleWorld))
    as (E & _ & _ & H).
  split; [exact E|].
  destruct (H (Window.mk (Fin 1280) (Fin 720) (Fin 1) true)
              (set_size (Fin 1) (Fin 1) (fst sampleWorld))
              eq_refl eq_refl eq_refl)
    as (_ & _ & _ & _ & Hmw & _).
  exact Hmw.
Defined.

(** ** The constructor *)

Lemma extractCoordinates_nationPath g s :
  extractCoordinates g s = set_nationPath (nationPath (extractCoordinates g s)) s.
Proof. destruct g; destruct s; reflexivity. Qed.

(** Loading the border touches [nationPath] alone. *)
Lemma loadUSBorder_nationPath nation s :
  loadUSBorder nation s = set_nationPath (nationPath (loadUSBorder nation s)) s.
Proof.
  destruct nation as [features | g]; simpl; [|apply extractCoordinates_nationPath].
  revert s. induction features as [|g gs IH]; intros s; simpl.
  - now destruct s.
  - etransitivity; [apply IH|].
    match goal with |- set_nationPath ?R _ = _ => generalize R end.
    intros R. now rewrite (extractCoordinates_nationPath g s).
Qed.

(** What the constructor builds. *)
Lemma construct_built rnd cv cx win nation k s k' :
  construct rnd cv cx win nation k = Some (s, k') ->
  connections s = generateConnectionsFor (List.length edgeLocations) [] /\
  (dataPackets s, k')
  = pushPackets rnd
      (if (Window.innerWidth win <? Fin 768)%num then 15 else 25)%nat [] k /\
  prefersReducedMotion s = Window.prefersReducedMotion win.
Proof.
  unfold construct. destruct cx as [cx|]; [|discriminate].
  rewrite loadUSBorder_nationPath.
  match goal with
  | |- context [nationPath ?t] => generalize (nationPath t)
  end.
  intros rings. unfold generateConnections, initDataPackets.
  match goal with
  | |- context [resize win ?t] =>
      destruct (resize_keeps win t) as (Ed & Er & _ & _ & Ec);
      generalize dependent (resize win t)
  end.
  cbn [set_nationPath set_connections connections dataPackets
       prefersReducedMotion].
  intros t Ed Er Ec. rewrite Ed.
  destruct (pushPackets rnd _ [] k) as [packets k''].
  intros E. injection E as <- <-. simpl. auto.
Qed.

Lemma sampleWorld_constructed :
  construct sampleRandom sampleCanvas (Some Context2D.default)
            sampleWindow sampleNation 0
  = Some sampleWorld.
Proof. reflexivity. Qed.

(** ** The connection mesh *)

Open Scope nat_scope.

Lemma inner_loop_pushes i js acc :
  fold_left (fun acc' j => push acc' (Connection.mk i j)) js acc
  = acc ++ map (Connection.mk i) js.
Proof.
  revert acc. induction js as [|j js IH]; intros acc; simpl.
  - now rewrite app_nil_r.
  - rewrite IH. unfold push. now rewrite <- app_assoc.
Qed.

Lemma outer_loop_pushes M a n acc :
  fold_left
    (fun acc i =>
       fold_left (fun acc' j => push acc' (Connection.mk i j))
                 (seq (S i) (M - S i)) acc)
    (seq a n) acc
  = acc ++ meshFrom M a n.
Proof.
  revert a acc. induction n as [|n IH]; intros a acc; simpl.
  - now rewrite app_nil_r.
  - rewrite inner_loop_pushes, IH. unfold meshFrom. simpl.
    now rewrite <- app_assoc.
Qed.

Lemma generateConnectionsFor_mesh M conns :
  generateConnectionsFor M conns = conns ++ meshFrom M 0 M.
Proof. apply outer_loop_pushes. Qed.

Lemma in_meshFrom M a n c :
  In c (meshFrom M a n) <->
  a <= Connection.from c < a + n /\
  Connection.from c < Connection.to c < M.
Proof.
  unfold meshFrom. rewrite in_flat_map. split.
  - intros (i & Hi & Hc). apply in_seq in Hi.
    apply in_map_iff in Hc. destruct Hc as (j & <- & Hj).
    apply in_seq in Hj. simpl. lia.
  - intros (Hf & Ht). exists (Connection.from c). split.
    + apply in_seq. lia.
    + apply in_map_iff. exists (Connection.to c). split.
      * now destruct c.
      * apply in_seq. lia.
Qed.

Lemma meshFrom_step M a n :
  meshFrom M a (S n)
  = map (Connection.mk a) (seq (S a) (M - S a)) ++ meshFrom M (S a) n.
Proof. reflexivity. Qed.

Lemma meshFrom_NoDup M a n : NoDup (meshFrom M a n).
Proof.
  revert a. induction n as [|n IH]; intros a.
  - constructor.
  - rewrite meshFrom_step. apply NoDup_app.
    + apply NoDup_map_NoDup_ForallPairs; [|apply seq_NoDup].
      intros j j' _ _ E. now inversion E.
    + apply IH.
    + intros c Hc Hc'. apply in_map_iff in Hc. destruct Hc as (j & <- & _).
      apply in_meshFrom in Hc'. simpl in Hc'. lia.
Qed.

(** The sizes of the rows add up to a triangular number. *)
Lemma meshFrom_length M a n :
  a + n = M -> 2 * List.length (meshFrom M a n) = n * (n - 1).
Proof.
  revert a. induction n as [|n IH]; intros a Ha.
  - reflexivity.
  - rewrite meshFrom_step, length_app, length_map, length_seq.
    specialize (IH (S a) ltac:(lia)). nia.
Qed.

Lemma handle_connections rnd e w :
  connections (fst (handle rnd e w)) = connections (fst w).
Proof.
  destruct w as [s k]. destruct e as [ | win | b]; simpl.
  - unfold drawDataPackets.
    destruct (forEachPacket rnd s (dataPackets s) k) as [[[ps dr] c] k'].
    reflexivity.
  - apply resize_keeps.
  - reflexivity.
Qed.

(** The connections are generated once and never touched again. *)
Lemma reachable_connections rnd w :
  reachable rnd w ->
  connections (fst w) = generateConnectionsFor (List.length edgeLocations) [].
Proof.
  induction 1 as [cv cx win nation k [s k'] Hc | e w Hr IH].
  - now apply construct_built in Hc.
  - now rewrite handle_connections.
Qed.

(** C4.  Generating the connections of [M] locations from an empty array
    gives exactly [M * (M - 1) / 2] of them; each joins two distinct indices
    below [M], the smaller one first; no unordered pair occurs at two
    positions; every pair of distinct indices below [M] is joined.  Pushed
    onto connections that exist already, they follow them.  The map as built
    by the constructor, and at any later time, holds the 378 connections of
    the 28 locations. *)
Theorem generateConnections_complete_graph :
  (forall M,
      let cs := generateConnectionsFor M [] in
      List.length cs = M * (M - 1) / 2 /\
      (forall c, In c cs ->
                 Connection.from c <> Connection.to c /\
                 Connection.from c < Connection.to c < M) /\
      (forall i j c d,
          nth_error cs i = Some c -> nth_error cs j = Some d ->
          sameUnorderedPair c d -> i = j) /\
      (forall a b, a < M -> b < M -> a <> b ->
                   exists c, In c cs /\
                             sameUnorderedPair c (Connection.mk a b)) /\
      (forall conns,
          generateConnectionsFor M conns = conns ++ cs)) /\
  List.length edgeLocations = 28 /\
  List.length (generateConnectionsFor (List.length edgeLocations) []) = 378 /\
  (forall rnd w,
      reachable rnd w ->
      connections (fst w)
      = generateConnectionsFor (List.length edgeLocations) [] /\
      List.length (connections (fst w)) = 378).
Proof.
  assert (Hlen : forall M,
             List.length (generateConnectionsFor M []) = M * (M - 1) / 2).
  { intros M. rewrite generateConnectionsFor_mesh, app_nil_l.
    pose proof (meshFrom_length M 0 M eq_refl) as H.
    apply Nat.div_unique_exact; lia. }
  split; [|split; [reflexivity|split; [apply Hlen|]]].
  - intros M cs. split; [apply Hlen|].
    assert (Hcs : cs = meshFrom M 0 M)
      by (unfold cs; now rewrite generateConnectionsFor_mesh).
    assert (Hin : forall c, In c cs ->
                            Connection.from c < Connection.to c < M).
    { intros c Hc. rewrite Hcs in Hc. apply in_meshFrom in Hc. lia. }
    repeat split.
    + apply Hin in H. lia.
    + now apply Hin.
    + now apply Hin.
    + intros i j c d Hi Hj Hsame.
      assert (Hc := Hin c (nth_error_In _ _ Hi)).
      assert (Hd := Hin d (nth_error_In _ _ Hj)).
      assert (E : c = d).
      { destruct c as [cf ct], d as [df dt].
        unfold sameUnorderedPair in Hsame. simpl in *.
        destruct Hsame as [[E1 E2] | [E1 E2]]; [congruence | lia]. }
      subst d.
      pose proof (meshFrom_NoDup M 0 M) as Hnd. rewrite <- Hcs in Hnd.
      rewrite NoDup_nth_error in Hnd. apply Hnd.
      * apply nth_error_Some. congruence.
      * congruence.
    + intros a b Ha Hb Hab.
      exists (Connection.mk (Nat.min a b) (Nat.max a b)). split.
      * rewrite Hcs. apply in_meshFrom. simpl. lia.
      * unfold sameUnorderedPair. simpl. lia.
    + intros conns. rewrite Hcs. apply generateConnectionsFor_mesh.
  - intros rnd w Hr. pose proof (reachable_connections rnd w Hr) as E.
    split; [exact E|]. rewrite E. apply Hlen.
Qed.

(** Four locations give six connections; the second one joins 0 and 2, and
    the pair of 3 and 1 is joined too.  The sample map, one frame after its
    construction, holds 378 connections. *)
Lemma generateConnections_complete_graph_witness :
  List.length (generateConnectionsFor 4 []) = 6 /\
  In (Connection.mk 0 2) (generateConnectionsFor 4 []) /\
  (0 <> 2 /\ 0 < 2 < 4) /\
  (3 < 4 /\ 1 < 4 /\ 3 <> 1 /\
   exists c, In c (generateConnectionsFor 4 []) /\
             sameUnorderedPair c (Connection.mk 3 1)) /\
  reachable sampleRandom (handle sampleRandom Frame sampleWorld) /\
  List.length (connections (fst (handle sampleRandom Frame sampleWorld))) = 378.
Proof.
  destruct generateConnections_complete_graph as (Hgen & _ & _ & Hreach).
  destruct (Hgen 4) as (Hlen & Hin & _ & Hall & _).
  assert (H02 : In (Connection.mk 0 2) (generateConnectionsFor 4 [])).
  { right. left. reflexivity. }
  assert (H3 : 3 < 4) by (repeat constructor).
  assert (H1 : 1 < 4) by (repeat constructor).
  assert (H31 : 3 <> 1) by discriminate.
  assert (Hr : reachable sampleRandom (handle sampleRandom Frame sampleWorld)).
  { apply reach_handle.
    exact (reach_construct sampleRandom _ _ _ _ _ _ sampleWorld_constructed). }
  split; [exact Hlen|]. split; [exact H02|].
  split; [exact (Hin _ H02)|].
  split; [exact (conj H3 (conj H1 (conj H31 (Hall 3 1 H3 H1 H31))))|].
  split; [exact Hr|]. exact (proj2 (Hreach _ _ Hr)).
Defined.

Close Scope nat_scope.

(** ** Packets *)

Lemma validIndex_get a :
  validIndex a -> exists loc, array_get edgeLocations a = Some loc.
Proof.
  intros (i & -> & Hi). rewrite array_get_of_nat.
  destruct (nth_error edgeLocations i) as [loc|] eqn:E; [now exists loc|].
  apply nth_error_None in E. lia.
Qed.

Lemma locatePacket_valid s p :
  validPacket p -> exists xy, locatePacket s p = Some xy.
Proof.
  intros (Hf & Ht & _). unfold locatePacket.
  destruct (validIndex_get _ Hf) as (a & ->).
  destruct (validIndex_get _ Ht) as (b & ->). eauto.
Qed.

Lemma validPacket_progress packets :
  Forall validPacket packets ->
  Forall (fun p => unitInterval (DataPacket.progress p)) packets.
Proof. apply Forall_impl. intros p H. apply H. Qed.

Lemma set_dataPackets_same s : set_dataPackets (dataPackets s) s = s.
Proof. now destruct s. Qed.

Lemma sampleRandom_unit : unitRandom sampleRandom.
Proof.
  intros k. unfold sampleRandom.
  pose proof (Nat.mod_upper_bound k 4 ltac:(discriminate)) as H.
  destruct (k mod 4)%nat as [|[|[|[|n]]]]; simpl; try lia;
    split; discriminate || reflexivity.
Qed.

Section Packets.

Variable rnd : nat -> number.

(** What one step does to a packet of finite progress and speed. *)
Lemma advancePacket_cases reduced p k q v :
  DataPacket.progress p = Fin q -> DataPacket.speed p = Fin v ->
  advancePacket rnd reduced p k =
  if reduced then (p, k)
  else if Qle_bool 1 (q + v)
       then (DataPacket.mk (randomIndex rnd k) (randomIndex rnd (k + 1))
                           (Fin 0) (Fin v), (k + 2)%nat)
       else (DataPacket.mk (DataPacket.from p) (DataPacket.to p)
                           (Fin (q + v)) (Fin v), k).
Proof.
  intros Hq Hv. unfold advancePacket. rewrite Hq, Hv.
  destruct reduced; [reflexivity|]. cbn [negb add].
  destruct (Qle_bool 1 (q + v)) eqn:E.
  - apply Qle_bool_iff, ge_Fin in E. rewrite E. reflexivity.
  - destruct (Fin (q + v) >=? Fin 1)%num eqn:E'; [|reflexivity].
    apply ge_Fin, Qle_bool_iff in E'. congruence.
Qed.

(** With reduced motion the loop changes no packet and draws no random
    number; it draws the packets it reaches where they are. *)
Lemma forEachPacket_reduced s packets k :
  prefersReducedMotion s = true ->
  exists drawn c,
    forEachPacket rnd s packets k = (packets, drawn, c, k) /\
    Forall2 (fun p xy => locatePacket s p = Some xy)
            (firstn (List.length drawn) packets) drawn /\
    (c = Normal <-> List.length drawn = List.length packets).
Proof.
  intros Hr. induction packets as [|p rest IH]; simpl.
  - exists [], Normal. repeat split; constructor.
  - unfold advancePacket. rewrite Hr. simpl.
    destruct (locatePacket s p) as [xy|] eqn:E.
    + destruct IH as (dr & c & -> & H1 & H2).
      exists (xy :: dr), c. simpl. repeat split.
      * now constructor.
      * intros Hc. f_equal. now apply H2.
      * intros Hl. apply H2. congruence.
    + exists [], TypeError. simpl. repeat split; try constructor; discriminate.
Qed.

Hypothesis Hrnd : unitRandom rnd.

Lemma randomIndex_valid k : validIndex (randomIndex rnd k).
Proof.
  unfold randomIndex. specialize (Hrnd k).
  destruct (rnd k) as [q | | |]; try contradiction. simpl in Hrnd.
  change (validIndex (Fin (inject_Z (Qfloor (q * inject_Z 28))))).
  set (z := Qfloor (q * inject_Z 28)).
  assert (Hz : (0 <= z < 28)%Z).
  { pose proof (Qfloor_le (q * inject_Z 28)) as H1.
    pose proof (Qlt_floor (q * inject_Z 28)) as H2. fold z in H1, H2.
    assert (H3 : inject_Z z < inject_Z 28).
    { eapply Qle_lt_trans; [exact H1|]. change (inject_Z 28) with 28. lra. }
    assert (H4 : inject_Z 0 < inject_Z (z + 1)).
    { eapply Qle_lt_trans; [|exact H2]. change (inject_Z 0) with 0.
      change (inject_Z 28) with 28. lra. }
    rewrite <- Zlt_Qlt in H3, H4. lia. }
  exists (Z.to_nat z). split.
  - unfold of_nat. rewrite Z2Nat.id by lia. reflexivity.
  - change (List.length edgeLocations) with 28%nat. lia.
Qed.

Lemma newPacket_valid k : validPacket (newPacket rnd k).
Proof.
  unfold validPacket, newPacket. simpl.
  split; [apply randomIndex_valid|]. split; [apply randomIndex_valid|].
  split; [apply Hrnd|].
  pose proof (Hrnd (k + 3)%nat) as H.
  destruct (rnd (k + 3)%nat) as [q | | |]; try contradiction. simpl in *. lra.
Qed.

Lemma pushPackets_valid n packets k :
  Forall validPacket packets ->
  Forall validPacket (fst (pushPackets rnd n packets k)) /\
  List.length (fst (pushPackets rnd n packets k)) = (List.length packets + n)%nat /\
  snd (pushPackets rnd n packets k) = (k + 4 * n)%nat.
Proof.
  revert packets k. induction n as [|n IH]; intros packets k Hps; simpl.
  - repeat split; [assumption | lia | lia].
  - destruct (IH (push packets (newPacket rnd k)) (k + 4)%nat) as (H1 & H2 & H3).
    + unfold push. apply Forall_app. split; [assumption|].
      constructor; [apply newPacket_valid | constructor].
    + repeat split; [assumption | | lia].
      rewrite H2. unfold push. rewrite length_app. simpl. lia.
Qed.

Lemma advancePacket_valid reduced p k :
  validPacket p -> validPacket (fst (advancePacket rnd reduced p k)).
Proof.
  intros (Hf & Ht & Hp & Hs).
  destruct (DataPacket.progress p) as [q | | |] eqn:Eq; try contradiction.
  destruct (DataPacket.speed p) as [v | | |] eqn:Ev; try contradiction.
  rewrite (advancePacket_cases reduced p k q v Eq Ev).
  destruct reduced.
  - simpl. unfold validPacket. rewrite Eq, Ev. tauto.
  - destruct (Qle_bool 1 (q + v)) eqn:E; simpl; unfold validPacket; simpl.
    + repeat split; try apply randomIndex_valid; simpl in *; lra.
    + assert (~ 1 <= q + v) by (rewrite <- Qle_bool_iff; congruence).
      simpl in *. repeat split; trivial; lra.
Qed.

(** With valid packets the loop runs to its end: every packet is advanced
    and drawn, and stays valid. *)
Lemma forEachPacket_valid s packets k :
  Forall validPacket packets ->
  exists packets' drawn k',
    forEachPacket rnd s packets k = (packets', drawn, Normal, k') /\
    Forall validPacket packets' /\
    Forall2 (fun p p' =>
               exists j, p' = fst (advancePacket rnd (prefersReducedMotion s) p j))
            packets packets' /\
    Forall2 (fun p' xy => locatePacket s p' = Some xy) packets' drawn.
Proof.
  intros H. revert k. induction H as [|p rest Hp Hrest IH]; intros k; simpl.
  - exists [], [], k. repeat split; constructor.
  - pose proof (advancePacket_valid (prefersReducedMotion s) p k Hp) as Hp'.
    destruct (advancePacket rnd (prefersReducedMotion s) p k) as [p' k1] eqn:E.
    simpl in Hp'. destruct (locatePacket_valid s p' Hp') as (xy & Hxy).
    rewrite Hxy. destruct (IH k1) as (ps' & dr & k2 & E2 & H1 & H2 & H3).
    rewrite E2. exists (p' :: ps'), (xy :: dr), k2.
    repeat split; constructor; trivial.
    exists k. now rewrite E.
Qed.

Lemma drawDataPackets_valid s k :
  Forall validPacket (dataPackets s) ->
  Forall validPacket (dataPackets (fst (fst (fst (drawDataPackets rnd s k))))) /\
  snd (drawDataPackets rnd s k) = Normal.
Proof.
  intros H. unfold drawDataPackets.
  destruct (forEachPacket_valid s (dataPackets s) k H)
    as (ps' & dr & k' & -> & H1 & _). simpl. auto.
Qed.

(** The invariant of the renderer: every packet is valid. *)
Lemma reachable_valid w :
  reachable rnd w -> Forall validPacket (dataPackets (fst w)).
Proof.
  induction 1 as [cv cx win nation k [s k'] Hc | e [s k] Hr IH].
  - apply construct_built in Hc. destruct Hc as (_ & Hc & _).
    pose proof (pushPackets_valid
                  (if (Window.innerWidth win <? Fin 768)%num then 15 else 25)%nat
                  [] k (Forall_nil _)) as (H & _).
    rewrite <- Hc in H. exact H.
  - simpl in IH. destruct e as [ | win | b]; simpl.
    + now apply drawDataPackets_valid.
    + now destruct (resize_keeps win s) as (-> & _).
    + exact IH.
Qed.

End Packets.

(** C2.  With [Math.random] in [[0,1)], the progress of every packet is in
    [[0,1)] in the map the constructor builds and in every state reached from
    it by frames, resizes and changes of the motion preference; a frame
    advances each packet by one step; and a step on a packet whose progress
    is in [[0,1)] and whose speed is not negative leaves the progress in
    [[0,1)]: when the advanced progress reaches or exceeds 1 that very step
    sets the progress to exactly 0 and draws a new random source and
    destination, inside the location list; otherwise the endpoints stay and
    the progress is the advanced one; under reduced motion nothing changes. *)
Theorem progress_in_unit_interval :
  forall rnd,
    unitRandom rnd ->
    (forall cv cx win nation k w,
        construct rnd cv cx win nation k = Some w ->
        Forall (fun p => unitInterval (DataPacket.progress p))
               (dataPackets (fst w))) /\
    (forall w,
        reachable rnd w ->
        Forall (fun p => unitInterval (DataPacket.progress p))
               (dataPackets (fst w)) /\
        Forall (fun p => unitInterval (DataPacket.progress p))
               (dataPackets (fst (handle rnd Frame w))) /\
        Forall2 (fun p p' =>
                   exists j,
                     p' = fst (advancePacket rnd (prefersReducedMotion (fst w)) p j))
                (dataPackets (fst w))
                (dataPackets (fst (handle rnd Frame w)))) /\
    (forall reduced p k q v,
        DataPacket.progress p = Fin q -> DataPacket.speed p = Fin v ->
        0 <= q < 1 -> 0 <= v ->
        let p' := fst (advancePacket rnd reduced p k) in
        unitInterval (DataPacket.progress p') /\
        (reduced = false -> 1 <= q + v ->
         advancePacket rnd reduced p k
         = (DataPacket.mk (randomIndex rnd k) (randomIndex rnd (k + 1))
                          (Fin 0) (Fin v), (k + 2)%nat) /\
         validIndex (DataPacket.from p') /\ validIndex (DataPacket.to p')) /\
        (reduced = false -> q + v < 1 ->
         advancePacket rnd reduced p k
         = (DataPacket.mk (DataPacket.from p) (DataPacket.to p)
                          (Fin (q + v)) (Fin v), k)) /\
        (reduced = true -> advancePacket rnd reduced p k = (p, k))).
Proof.
  intros rnd Hrnd. split; [|split].
  - intros cv cx win nation k w Hc. apply validPacket_progress.
    apply (reachable_valid rnd Hrnd).
    exact (reach_construct rnd cv cx win nation k w Hc).
  - intros [s k] Hr. pose proof (reachable_valid rnd Hrnd _ Hr) as Hv.
    split; [now apply validPacket_progress|].
    split.
    + apply validPacket_progress, (reachable_valid rnd Hrnd).
      now constructor.
    + simpl in *. unfold drawDataPackets.
      destruct (forEachPacket_valid rnd Hrnd s (dataPackets s) k Hv)
        as (ps' & dr & k' & -> & _ & H2 & _).
      exact H2.
  - intros reduced p k q v Eq Ev Hq Hv p'. unfold p'.
    rewrite (advancePacket_cases rnd reduced p k q v Eq Ev).
    destruct reduced.
    + simpl. rewrite Eq. repeat split; try discriminate.
      * exact (proj1 Hq).
      * exact (proj2 Hq).
    + destruct (Qle_bool 1 (q + v)) eqn:E.
      * apply Qle_bool_iff in E. simpl.
        repeat split; try discriminate; try lra;
          intros; try (apply randomIndex_valid; assumption); lra.
      * assert (~ 1 <= q + v) by (rewrite <- Qle_bool_iff; congruence).
        simpl. repeat split; try discriminate; try lra; intros; lra.
Qed.

(** The packets of the sample map stay in range over a frame, and a packet at
    progress 0.999 with speed 0.0035 wraps to 0 with new endpoints. *)
Lemma progress_in_unit_interval_witness :
  unitRandom sampleRandom /\
  reachable sampleRandom sampleWorld /\
  Forall (fun p => unitInterval (DataPacket.progress p))
         (dataPackets (fst (handle sampleRandom Frame sampleWorld))) /\
  (0 <= 0.999 < 1 /\ 0 <= 0.0035 /\ 1 <= 0.999 + 0.0035) /\
  advancePacket sampleRandom false
                (DataPacket.mk (Fin 7) (Fin 21) (Fin 0.999) (Fin 0.0035)) 100
  = (DataPacket.mk (randomIndex sampleRandom 100) (randomIndex sampleRandom 101)
                   (Fin 0) (Fin 0.0035), 102%nat).
Proof.
  assert (Hr : reachable sampleRandom sampleWorld)
    by exact (reach_construct sampleRandom _ _ _ _ _ _ sampleWorld_constructed).
  assert (Hq : 0 <= 0.999 < 1) by (split; [discriminate | reflexivity]).
  assert (Hv : 0 <= 0.0035) by discriminate.
  assert (Hw : 1 <= 0.999 + 0.0035) by discriminate.
  destruct (progress_in_unit_interval sampleRandom sampleRandom_unit)
    as (_ & Hreach & Hstep).
  split; [exact sampleRandom_unit|]. split; [exact Hr|].
  split; [exact (proj1 (proj2 (Hreach _ Hr)))|].
  split; [exact (conj Hq (conj Hv Hw))|].
  destruct (Hstep false (DataPacket.mk (Fin 7) (Fin 21) (Fin 0.999) (Fin 0.0035))
                  100%nat 0.999 0.0035 eq_refl eq_refl Hq Hv)
    as (_ & Hwrap & _).
  exact (proj1 (Hwrap eq_refl Hw)).
Defined.

(** C10.  With [Math.random] in [[0,1)], in every reachable state the source
    and destination of every packet are natural numbers below the length of
    the location list, 28, as every random index is; so both lookups of the
    per-frame step succeed for every packet, and the step returns normally
    having drawn every packet. *)
Theorem packet_indices_in_bounds :
  forall rnd,
    unitRandom rnd ->
    List.length edgeLocations = 28%nat /\
    (forall k, validIndex (randomIndex rnd k)) /\
    (forall w,
        reachable rnd w ->
        Forall (fun p => validIndex (DataPacket.from p) /\
                         validIndex (DataPacket.to p))
               (dataPackets (fst w)) /\
        (forall p,
            In p (dataPackets (fst w)) ->
            exists from to xy,
              array_get edgeLocations (DataPacket.from p) = Some from /\
              array_get edgeLocations (DataPacket.to p) = Some to /\
              locatePacket (fst w) p = Some xy) /\
        (exists s' k' drawn,
            drawDataPackets rnd (fst w) (snd w) = (s', k', drawn, Normal) /\
            List.length drawn = List.length (dataPackets (fst w)))).
Proof.
  intros rnd Hrnd. split; [reflexivity|].
  split; [apply (randomIndex_valid rnd Hrnd)|].
  intros [s k] Hr. pose proof (reachable_valid rnd Hrnd _ Hr) as Hv.
  simpl in *. split; [|split].
  - revert Hv. apply Forall_impl. intros p (Hf & Ht & _). now split.
  - intros p Hp. rewrite Forall_forall in Hv. specialize (Hv p Hp).
    destruct Hv as (Hf & Ht & _). unfold locatePacket.
    destruct (validIndex_get _ Hf) as (a & Ea).
    destruct (validIndex_get _ Ht) as (b & Eb).
    rewrite Ea, Eb. exists a, b. eexists. repeat split.
  - unfold drawDataPackets.
    destruct (forEachPacket_valid rnd Hrnd s (dataPackets s) k Hv)
      as (ps' & dr & k' & -> & _ & H2 & H3).
    eexists. eexists. eexists. split; [reflexivity|].
    apply Forall2_length in H2, H3. congruence.
Qed.

(** Two frames and a resize after its construction, the sample map still
    draws all its packets. *)
Lemma packet_indices_in_bounds_witness :
  unitRandom sampleRandom /\
  reachable sampleRandom
    (handle sampleRandom (Resize (Window.mk (Fin 375) (Fin 667) (Fin 3) false))
       (frames sampleRandom 2 sampleWorld)) /\
  exists s' k' drawn,
    drawDataPackets sampleRandom
      (fst (handle sampleRandom (Resize (Window.mk (Fin 375) (Fin 667) (Fin 3) false))
              (frames sampleRandom 2 sampleWorld)))
      (snd (handle sampleRandom (Resize (Window.mk (Fin 375) (Fin 667) (Fin 3) false))
              (frames sampleRandom 2 sampleWorld)))
    = (s', k', drawn, Normal).
Proof.
  assert (Hr : reachable sampleRandom
                 (handle sampleRandom
                    (Resize (Window.mk (Fin 375) (Fin 667) (Fin 3) false))
                    (frames sampleRandom 2 sampleWorld))).
  { apply reach_handle.
    change (frames sampleRandom 2 sampleWorld)
      with (handle sampleRandom Frame (handle sampleRandom Frame sampleWorld)).
    do 2 apply reach_handle.
    exact (reach_construct sampleRandom _ _ _ _ _ _ sampleWorld_constructed). }
  split; [exact sampleRandom_unit|]. split; [exact Hr|].
  destruct (packet_indices_in_bounds sampleRandom sampleRandom_unit)
    as (_ & _ & Hreach).
  destruct (Hreach _ Hr) as (_ & _ & s' & k' & drawn & E & _).
  exists s', k', drawn. exact E.
Defined.

(** C3.  With the reduced-motion flag set, any number [N] of frames leaves
    the renderer, and so the progress, source and destination of every
    packet, as it was before the first one, and draws no random number; each
    frame draws the packets at the positions of their unchanged state. *)
Theorem reduced_motion_freezes_packets :
  forall rnd s k N,
    prefersReducedMotion s = true ->
    frames rnd N (s, k) = (s, k) /\
    dataPackets (fst (frames rnd N (s, k))) = dataPackets s /\
    exists drawn c,
      drawDataPackets rnd s k = (s, k, drawn, c) /\
      Forall2 (fun p xy => locatePacket s p = Some xy)
              (firstn (List.length drawn) (dataPackets s)) drawn /\
      (c = Normal <-> List.length drawn = List.length (dataPackets s)).
Proof.
  intros rnd s k N Hr.
  destruct (forEachPacket_reduced rnd s (dataPackets s) k Hr)
    as (drawn & c & E & H1 & H2).
  assert (Ed : drawDataPackets rnd s k = (s, k, drawn, c)).
  { unfold drawDataPackets. rewrite E. now rewrite set_dataPackets_same. }
  assert (EN : frames rnd N (s, k) = (s, k)).
  { unfold frames. induction N as [|N IH]; simpl; [reflexivity|].
    rewrite IH. simpl. now rewrite Ed. }
  split; [exact EN|]. split; [now rewrite EN|]. now exists drawn, c.
Qed.

(** Three frames on the sample map under reduced motion change nothing. *)
Lemma reduced_motion_freezes_packets_witness :
  prefersReducedMotion sampleReduced = true /\
  frames sampleRandom 3 (sampleReduced, 100%nat) = (sampleReduced, 100%nat).
Proof.
  split; [reflexivity|].
  exact (proj1 (reduced_motion_freezes_packets
                  sampleRandom sampleReduced 100 3 eq_refl)).
Defined.

(** ** The curve of a packet *)

Lemma packetPosition_finite fx fy tx ty t :
  packetPosition (Point2D.mk (Fin fx) (Fin fy)) (Point2D.mk (Fin tx) (Fin ty)) (Fin t)
  = Point2D.mk
      (Fin ((1 - t) * (1 - t) * fx + 2 * (1 - t) * t * ((fx + tx) / 2) + t * t * tx))
      (Fin ((1 - t) * (1 - t) * fy + 2 * (1 - t) * t * (Qmin fy ty - 50) + t * t * ty)).
Proof. reflexivity. Qed.

Lemma edgeLocations_finite :
  Forall (fun loc => finite (EdgeLocation.lat loc) /\ finite (EdgeLocation.lon loc))
         edgeLocations.
Proof. repeat constructor. Qed.

(** C5.  The quadratic Bezier formula of the packet position, between any
    two finite points and so between any projected source and destination,
    gives exactly the source at progress 0 and exactly the destination at
    progress 1; a packet between two locations of the list is drawn on the
    projection of the first at progress 0 and of the second at progress 1. *)
Theorem packetPosition_endpoints :
  (forall fx fy tx ty,
      let a := Point2D.mk (Fin fx) (Fin fy) in
      let b := Point2D.mk (Fin tx) (Fin ty) in
      samePoint (packetPosition a b (Fin 0)) a /\
      samePoint (packetPosition a b (Fin 1)) b) /\
  (forall s0 mw mh ox oy lat1 lon1 lat2 lon2,
      let s := withProjection mw mh ox oy s0 in
      let a := latLonToXY s (Fin lat1) (Fin lon1) in
      let b := latLonToXY s (Fin lat2) (Fin lon2) in
      samePoint (packetPosition a b (Fin 0)) a /\
      samePoint (packetPosition a b (Fin 1)) b) /\
  (forall s0 mw mh ox oy i j v from to,
      let s := withProjection mw mh ox oy s0 in
      nth_error edgeLocations i = Some from ->
      nth_error edgeLocations j = Some to ->
      exists xy0 xy1,
        locatePacket s (DataPacket.mk (of_nat i) (of_nat j) (Fin 0) v) = Some xy0 /\
        locatePacket s (DataPacket.mk (of_nat i) (of_nat j) (Fin 1) v) = Some xy1 /\
        samePoint xy0 (latLonToXY s (EdgeLocation.lat from) (EdgeLocation.lon from)) /\
        samePoint xy1 (latLonToXY s (EdgeLocation.lat to) (EdgeLocation.lon to))).
Proof.
  assert (H : forall fx fy tx ty,
             let a := Point2D.mk (Fin fx) (Fin fy) in
             let b := Point2D.mk (Fin tx) (Fin ty) in
             samePoint (packetPosition a b (Fin 0)) a /\
             samePoint (packetPosition a b (Fin 1)) b).
  { intros fx fy tx ty a b. unfold a, b. rewrite !packetPosition_finite.
    unfold samePoint. cbn [Point2D.x Point2D.y eqv].
    repeat split; field. }
  split; [exact H|]. split.
  - intros s0 mw mh ox oy lat1 lon1 lat2 lon2 s a b. unfold a, b.
    rewrite !(latLonToXY_finite s mw mh ox oy (withProjection_is _ _ _ _ _)).
    apply H.
  - intros s0 mw mh ox oy i j v from to s Hi Hj.
    unfold locatePacket. cbn [DataPacket.from DataPacket.to DataPacket.progress].
    rewrite !array_get_of_nat, Hi, Hj.
    pose proof edgeLocations_finite as Hfin. rewrite Forall_forall in Hfin.
    destruct (Hfin _ (nth_error_In _ _ Hi)) as [Ha Ho].
    destruct (Hfin _ (nth_error_In _ _ Hj)) as [Hb Hp].
    destruct (EdgeLocation.lat from) as [la | | |]; try contradiction.
    destruct (EdgeLocation.lon from) as [lo | | |]; try contradiction.
    destruct (EdgeLocation.lat to) as [lb | | |]; try contradiction.
    destruct (EdgeLocation.lon to) as [lp | | |]; try contradiction.
    eexists. eexists. split; [reflexivity|]. split; [reflexivity|].
    rewrite !(latLonToXY_finite s mw mh ox oy (withProjection_is _ _ _ _ _)).
    apply H.
Qed.

(** A packet from New York to Los Angeles starts on New York. *)
Lemma packetPosition_endpoints_witness :
  nth_error edgeLocations 5
  = Some (EdgeLocation.mk "New York, NY" (Fin 40.71) (Fin (-74.01))) /\
  nth_error edgeLocations 21
  = Some (EdgeLocation.mk "Los Angeles, CA" (Fin 34.05) (Fin (-118.24))) /\
  exists xy0,
    locatePacket (withProjection 590 260 10 20 blankMap)
                 (DataPacket.mk (of_nat 5) (of_nat 21) (Fin 0) (Fin 0.004))
    = Some xy0 /\
    samePoint xy0
      (latLonToXY (withProjection 590 260 10 20 blankMap) (Fin 40.71) (Fin (-74.01))).
Proof.
  split; [reflexivity|]. split; [reflexivity|].
  destruct packetPosition_endpoints as (_ & _ & H).
  destruct (H blankMap 590 260 10 20 5%nat 21%nat (Fin 0.004) _ _ eq_refl eq_refl)
    as (xy0 & _ & E0 & _ & Hs & _).
  exists xy0. split; [exact E0 | exact Hs].
Defined.

(** C9.  For the locations (lat 40, lon -74) and (lat 34, lon -118) and any
    finite projection parameters, positive or not, the packet at progress 0.5
    has a [y] strictly smaller than that of the midpoint of the straight line
    between the two projected points, in either direction of travel; it is at
    least 25 pixels above it, and horizontally on it. *)
Theorem packet_midpath_above_chord :
  forall s0 mw mh ox oy,
    let s := withProjection mw mh ox oy s0 in
    let a := latLonToXY s (Fin 40) (Fin (-74)) in
    let b := latLonToXY s (Fin 34) (Fin (-118)) in
    let mid := ((Point2D.y a + Point2D.y b) / Fin 2)%num in
    (Point2D.y (packetPosition a b (Fin 0.5)) <? mid)%num = true /\
    (Point2D.y (packetPosition b a (Fin 0.5)) <? mid)%num = true /\
    (Point2D.y (packetPosition a b (Fin 0.5)) + Fin 25 >? mid)%num = false /\
    Point2D.x (packetPosition a b (Fin 0.5))
    =~ ((Point2D.x a + Point2D.x b) / Fin 2)%num.
Proof.
  intros s0 mw mh ox oy s a b mid. unfold mid, a, b.
  rewrite !(latLonToXY_finite s mw mh ox oy (withProjection_is _ _ _ _ _)).
  rewrite !packetPosition_finite. cbn [Point2D.x Point2D.y].
  set (ya := oy + (50 - 40) / (50 - 24) * mh).
  set (yb := oy + (50 - 34) / (50 - 24) * mh).
  set (xa := ox + (-74 - -125) / (-66 - -125) * mw).
  set (xb := ox + (-118 - -125) / (-66 - -125) * mw).
  change ((Fin ya + Fin yb) / Fin 2)%num with (Fin ((ya + yb) / 2)).
  change ((Fin xa + Fin xb) / Fin 2)%num with (Fin ((xa + xb) / 2)).
  assert (Em : (ya + yb) / 2 == (ya + yb) * (1 # 2)) by field.
  pose proof (Q.le_min_l ya yb). pose proof (Q.le_min_r ya yb).
  pose proof (Q.le_min_l yb ya). pose proof (Q.le_min_r yb ya).
  repeat split.
  - apply lt_Fin. rewrite Em. lra.
  - apply lt_Fin. rewrite Em. lra.
  - cbn [add]. apply not_true_is_false. rewrite gt_Fin. rewrite Em. lra.
  - cbn [eqv]. field.
Qed.

(** * Further properties of the renderer *)

(** ** The projection of the bounding box *)

Lemma le_Fin p q : (Fin p <=? Fin q)%num = true <-> p <= q.
Proof.
  unfold le, compare. rewrite Qle_alt.
  destruct (p ?= q); split; congruence.
Qed.

Lemma latLonToXY_inside s mw mh ox oy lat lon :
  projectionIs s mw mh ox oy -> 0 <= mw -> 0 <= mh ->
  insideBox lat lon ->
  insideRect mw mh ox oy 0 (latLonToXY s (Fin lat) (Fin lon)).
Proof.
  intros Hp Hw Hh ((H1 & H2) & (H3 & H4)).
  rewrite (latLonToXY_finite s mw mh ox oy Hp).
  unfold insideRect. cbn [Point2D.x Point2D.y].
  rewrite x_slope, y_slope. repeat split; nra.
Qed.

(** X1.  With finite, non-negative map size every point of the bounding box
    projects into the map rectangle, not only its corners; with a positive
    map size the converse holds too: a point that projects into the rectangle
    lies in the bounding box. *)
Theorem latLonToXY_box_to_rectangle :
  forall s mw mh ox oy lat lon,
    projectionIs s mw mh ox oy ->
    (0 <= mw -> 0 <= mh -> insideBox lat lon ->
     insideRect mw mh ox oy 0 (latLonToXY s (Fin lat) (Fin lon))) /\
    (0 < mw -> 0 < mh ->
     insideRect mw mh ox oy 0 (latLonToXY s (Fin lat) (Fin lon)) ->
     insideBox lat lon).
Proof.
  intros s mw mh ox oy lat lon Hp. split.
  - now apply latLonToXY_inside.
  - rewrite (latLonToXY_finite s mw mh ox oy Hp).
    unfold insideRect, insideBox. cbn [Point2D.x Point2D.y].
    rewrite x_slope, y_slope.
    intros Hw Hh ((H1 & H2) & (H3 & H4)). repeat split; nra.
Qed.

(** New York lies in the box and is drawn in the rectangle; Honolulu is
    drawn outside the rectangle and so lies outside the box. *)
Lemma latLonToXY_box_to_rectangle_witness :
  projectionIs sampleProjected 590 260 10 20 /\
  (0 <= 590 /\ 0 <= 260 /\ insideBox 40.71 (-74.01)) /\
  insideRect 590 260 10 20 0
             (latLonToXY sampleProjected (Fin 40.71) (Fin (-74.01))) /\
  (0 < 590 /\ 0 < 260 /\ ~ insideBox 21.31 (-157.86)) /\
  ~ insideRect 590 260 10 20 0
               (latLonToXY sampleProjected (Fin 21.31) (Fin (-157.86))).
Proof.
  assert (Hp : projectionIs sampleProjected 590 260 10 20)
    by (repeat split).
  assert (Hw : 0 <= 590) by discriminate.
  assert (Hh : 0 <= 260) by discriminate.
  assert (Hb : insideBox 40.71 (-74.01)) by (repeat split; discriminate).
  assert (Hw' : 0 < 590) by reflexivity.
  assert (Hh' : 0 < 260) by reflexivity.
  assert (Hout : ~ insideBox 21.31 (-157.86)).
  { intros [[H _] _]. apply H. reflexivity. }
  split; [exact Hp|]. split; [exact (conj Hw (conj Hh Hb))|].
  split; [exact (proj1 (latLonToXY_box_to_rectangle _ _ _ _ _ _ _ Hp) Hw Hh Hb)|].
  split; [exact (conj Hw' (conj Hh' Hout))|].
  intros Hin.
  exact (Hout (proj2 (latLonToXY_box_to_rectangle _ _ _ _ _ _ _ Hp) Hw' Hh' Hin)).
Defined.

(** ** Loading the border *)

Lemma fold_push {A} (xs acc : list A) : fold_left push xs acc = acc ++ xs.
Proof.
  revert acc. induction xs as [|x xs IH]; intros acc; simpl.
  - now rewrite app_nil_r.
  - rewrite IH. unfold push. now rewrite <- app_assoc.
Qed.

Lemma fold_push_polygons {A} (ps : list (list A)) (acc : list A) :
  fold_left (fun acc polygon => fold_left push polygon acc) ps acc
  = acc ++ List.concat ps.
Proof.
  revert acc. induction ps as [|p ps IH]; intros acc; simpl.
  - now rewrite app_nil_r.
  - rewrite IH, fold_push. now rewrite <- app_assoc.
Qed.

Lemma extractCoordinates_rings g s :
  extractCoordinates g s = set_nationPath (nationPath s ++ ringsOfGeometry g) s.
Proof.
  destruct g as [rings | polygons | ]; simpl.
  - now rewrite fold_push.
  - now rewrite fold_push_polygons.
  - rewrite app_nil_r. now destruct s.
Qed.

Lemma loadUSBorder_rings nation s :
  loadUSBorder nation s = set_nationPath (nationPath s ++ ringsOf nation) s.
Proof.
  destruct nation as [features | g]; simpl; [|apply extractCoordinates_rings].
  revert s. induction features as [|g gs IH]; intros s; simpl.
  - rewrite app_nil_r. now destruct s.
  - rewrite IH, extractCoordinates_rings. simpl. now rewrite <- app_assoc.
Qed.

(** X2.  Loading the border appends to [nationPath] the rings of the data,
    in their order: those of each polygon, those of all polygons of each
    multi-polygon, nothing for a geometry of another type; it changes no
    other field.  The number of rings grows by the number of rings of the
    data, and two loads in a row append both. *)
Theorem loadUSBorder_collects_rings :
  forall nation s,
    loadUSBorder nation s = set_nationPath (nationPath s ++ ringsOf nation) s /\
    nationPath (loadUSBorder nation s) = nationPath s ++ ringsOf nation /\
    List.length (nationPath (loadUSBorder nation s))
    = (List.length (nationPath s) + List.length (ringsOf nation))%nat /\
    (forall nation',
        nationPath (loadUSBorder nation' (loadUSBorder nation s))
        = nationPath s ++ ringsOf nation ++ ringsOf nation') /\
    (forall features features',
        ringsOf (GeoJSON.FeatureCollection (features ++ features'))
        = ringsOf (GeoJSON.FeatureCollection features)
          ++ ringsOf (GeoJSON.FeatureCollection features')).
Proof.
  intros nation s. rewrite loadUSBorder_rings.
  split; [reflexivity|]. split; [reflexivity|]. split; [|split].
  - cbn [set_nationPath nationPath]. apply length_app.
  - intros nation'. rewrite loadUSBorder_rings.
    cbn [set_nationPath nationPath]. now rewrite <- app_assoc.
  - intros features features'. apply flat_map_app.
Qed.

(** ** Drawing the border *)

Lemma pathPoints_app a b : pathPoints (a ++ b) = pathPoints a ++ pathPoints b.
Proof. apply flat_map_app. Qed.

Lemma pathPoints_lineTos s vs :
  pathPoints (lineTos s vs) = map (projectVertex s) vs.
Proof.
  induction vs as [|v vs IH]; simpl; [reflexivity|].
  rewrite <- IH. reflexivity.
Qed.

Lemma drawRing_cons s v vs :
  drawRing s (v :: vs)
  = [Draw.beginPath;
     Draw.moveTo (Point2D.x (projectVertex s v)) (Point2D.y (projectVertex s v))]
      ++ lineTos s vs ++ [Draw.closePath; Draw.stroke].
Proof. reflexivity. Qed.

Lemma pathPoints_drawRing s ring :
  pathPoints (drawRing s ring) = map (projectVertex s) ring.
Proof.
  destruct ring as [|v vs]; [reflexivity|].
  rewrite drawRing_cons, !pathPoints_app, pathPoints_lineTos. simpl.
  now rewrite app_nil_r.
Qed.

Lemma pathPoints_rings s rings :
  pathPoints (flat_map (drawRing s) rings)
  = map (projectVertex s) (List.concat rings).
Proof.
  induction rings as [|r rs IH]; [reflexivity|].
  cbn [flat_map List.concat].
  now rewrite pathPoints_app, pathPoints_drawRing, IH, map_app.
Qed.

Lemma last_cons {A} (q : A) qs a : last (q :: qs) a = last qs q.
Proof.
  revert q a. induction qs as [|r qs IH]; intros q a; [reflexivity|].
  change (last (q :: r :: qs) a) with (last (r :: qs) a).
  now rewrite !IH.
Qed.

Lemma segmentsFrom_lineTos s a vs rest :
  segmentsFrom (Some a) (lineTos s vs ++ rest)
  = combine (a :: map (projectVertex s) vs) (map (projectVertex s) vs)
    ++ segmentsFrom (Some (last (map (projectVertex s) vs) a)) rest.
Proof.
  revert a. induction vs as [|v vs IH]; intros a; [reflexivity|].
  change (segmentsFrom (Some a) (lineTos s (v :: vs) ++ rest))
    with ((a, projectVertex s v)
            :: segmentsFrom (Some (projectVertex s v)) (lineTos s vs ++ rest)).
  rewrite IH.
  change (map (projectVertex s) (v :: vs))
    with (projectVertex s v :: map (projectVertex s) vs).
  rewrite last_cons. reflexivity.
Qed.

(** Each ring starts a new path, so no segment joins two rings. *)
Lemma segmentsFrom_rings s cur rings :
  segmentsFrom cur (flat_map (drawRing s) rings)
  = flat_map (ringSegments s) rings.
Proof.
  revert cur. induction rings as [|ring rings IH]; intros cur; [reflexivity|].
  cbn [flat_map]. destruct ring as [|v vs].
  - apply IH.
  - rewrite drawRing_cons, <- !app_assoc.
    change (segmentsFrom cur _)
      with (segmentsFrom (Some (projectVertex s v))
              (lineTos s vs
                 ++ [Draw.closePath; Draw.stroke]
                 ++ flat_map (drawRing s) rings)).
    rewrite segmentsFrom_lineTos. unfold ringSegments at 1. cbn [map tl].
    f_equal. cbn [app segmentsFrom]. apply IH.
Qed.

Lemma count_lineTos s vs :
  filter isStroke (lineTos s vs) = [] /\
  filter isClosePath (lineTos s vs) = [] /\
  List.length (filter isLineTo (lineTos s vs)) = List.length vs.
Proof.
  induction vs as [|w ws IH]; [repeat split|].
  destruct IH as (H1 & H2 & H3).
  repeat split; try assumption.
  change (S (List.length (filter isLineTo (lineTos s ws))) = S (List.length ws)).
  now f_equal.
Qed.

Lemma count_drawRing s ring :
  List.length (filter isStroke (drawRing s ring))
  = (if nonEmpty ring then 1 else 0)%nat /\
  List.length (filter isClosePath (drawRing s ring))
  = (if nonEmpty ring then 1 else 0)%nat /\
  (List.length (filter isLineTo (drawRing s ring))
   + (if nonEmpty ring then 1 else 0)
   = List.length ring)%nat.
Proof.
  destruct ring as [|v vs]; [repeat split|].
  rewrite drawRing_cons, !filter_app, !length_app. cbn [nonEmpty].
  destruct (count_lineTos s vs) as (-> & -> & ->). simpl. repeat split; lia.
Qed.

(** X3.  The border layer visits the vertices of all rings in order, each
    exactly once, reading a vertex as [[lon, lat]]; it traces the segments
    between consecutive vertices of a ring and none between two rings; an
    empty ring draws nothing, every other ring is one path, closed and
    stroked once, with one [lineTo] for each vertex after its first. *)
Theorem drawUSBorder_traces_rings :
  forall s,
    let rings := nationPath s in
    pathPoints (drawUSBorder s) = map (projectVertex s) (List.concat rings) /\
    segmentsOf (drawUSBorder s) = flat_map (ringSegments s) rings /\
    List.length (filter isStroke (drawUSBorder s))
    = List.length (filter nonEmpty rings) /\
    List.length (filter isClosePath (drawUSBorder s))
    = List.length (filter nonEmpty rings) /\
    (List.length (filter isLineTo (drawUSBorder s))
     + List.length (filter nonEmpty rings)
     = List.length (List.concat rings))%nat.
Proof.
  intros s rings. unfold drawUSBorder. fold rings.
  split; [|split].
  - rewrite pathPoints_app. apply pathPoints_rings.
  - unfold segmentsOf. cbn [app segmentsFrom]. apply segmentsFrom_rings.
  - rewrite !filter_app, !length_app.
    cbn [filter isStroke isClosePath isLineTo length].
    rewrite !Nat.add_0_l.
    induction rings as [|r rs IH]; [repeat split|].
    destruct IH as (H1 & H2 & H3).
    cbn [flat_map List.concat filter]. rewrite !filter_app, !length_app.
    destruct (count_drawRing s r) as (E1 & E2 & E3). rewrite E1, E2.
    destruct r as [|v vs]; cbn [nonEmpty] in *;
      simpl (List.length (_ :: _)) in *; simpl (List.length []) in *;
      repeat split; lia.
Qed.

(** X4.  With finite, non-negative map size, a border whose vertices all lie
    in the bounding box is drawn inside the map rectangle: every point the
    border layer moves or draws a line to is in it. *)
Theorem drawUSBorder_inside_map :
  forall s mw mh ox oy,
    projectionIs s mw mh ox oy -> 0 <= mw -> 0 <= mh ->
    Forall (Forall vertexInBox) (nationPath s) ->
    Forall (insideRect mw mh ox oy 0) (pathPoints (drawUSBorder s)).
Proof.
  intros s mw mh ox oy Hp Hw Hh Hin. unfold drawUSBorder.
  rewrite pathPoints_app, pathPoints_rings. cbn [pathPoints flat_map app].
  apply Forall_map. apply Forall_concat in Hin.
  revert Hin. apply Forall_impl. intros [lon lat] Hv.
  unfold vertexInBox in Hv. cbn [fst snd] in Hv. unfold projectVertex. cbn [fst snd].
  destruct lat as [lat | | |]; try contradiction.
  destruct lon as [lon | | |]; try contradiction.
  now apply (latLonToXY_inside s mw mh ox oy).
Qed.

(** The triangle of the sample border is drawn inside the sample rectangle. *)
Lemma drawUSBorder_inside_map_witness :
  projectionIs sampleProjected 590 260 10 20 /\
  0 <= 590 /\ 0 <= 260 /\
  Forall (Forall vertexInBox) (nationPath sampleProjected) /\
  Forall (insideRect 590 260 10 20 0) (pathPoints (drawUSBorder sampleProjected)).
Proof.
  assert (Hp : projectionIs sampleProjected 590 260 10 20) by (repeat split).
  assert (Hw : 0 <= 590) by discriminate.
  assert (Hh : 0 <= 260) by discriminate.
  assert (Hin : Forall (Forall vertexInBox) (nationPath sampleProjected)).
  { repeat constructor; discriminate. }
  do 4 (split; [assumption|]).
  exact (drawUSBorder_inside_map _ _ _ _ _ Hp Hw Hh Hin).
Defined.

(** ** The grid *)

Lemma forUpTo_more fuel extra v limit step body r :
  forUpTo fuel v limit step body = Some r ->
  forUpTo (fuel + extra) v limit step body = Some r.
Proof.
  revert v r. induction fuel as [|fuel IH]; intros v r; [discriminate|].
  cbn [forUpTo Nat.add]. destruct (v <=? limit)%num; [|trivial].
  destruct (forUpTo fuel (v + step)%num limit step body) as [rest|] eqn:E;
    [|discriminate].
  now rewrite (IH _ _ E).
Qed.

(** Six iterations and a seventh, failing, test. *)
Lemma forUpTo_parallels body :
  forUpTo 7 (Fin 25) (Fin 50) (Fin 5) body
  = Some (flat_map body [Fin 25; Fin 30; Fin 35; Fin 40; Fin 45; Fin 50]).
Proof. reflexivity. Qed.

Lemma forUpTo_meridians body :
  forUpTo 7 (Fin (-120)) (Fin (-70)) (Fin 10) body
  = Some (flat_map body
            [Fin (-120); Fin (-110); Fin (-100); Fin (-90); Fin (-80); Fin (-70)]).
Proof. reflexivity. Qed.

(** X5.  Both loops of the grid layer end after six iterations: it strokes
    twelve segments, the parallels of latitude 25 to 50 in steps of 5 and the
    meridians of longitude -120 to -70 in steps of 10.  With a finite
    projection every parallel is horizontal and spans the rectangle from
    [offsetX] to [offsetX + mapWidth], every meridian is vertical and spans
    it from [offsetY] to [offsetY + mapHeight]; with a non-negative map size
    the whole grid lies in the rectangle. *)
Theorem drawWireframeGrid_lines :
  forall fuel s mw mh ox oy,
    projectionIs s mw mh ox oy ->
    (7 <= fuel)%nat ->
    exists cmds,
      drawWireframeGrid fuel s = Some cmds /\
      segmentsOf cmds
      = map (parallel s) [25; 30; 35; 40; 45; 50]
        ++ map (meridian s) [-120; -110; -100; -90; -80; -70] /\
      List.length (filter isStroke cmds) = 12%nat /\
      (forall lat,
          Point2D.x (fst (parallel s lat)) =~ Fin ox /\
          Point2D.x (snd (parallel s lat)) =~ Fin (ox + mw) /\
          Point2D.y (fst (parallel s lat)) = Point2D.y (snd (parallel s lat))) /\
      (forall lon,
          Point2D.y (fst (meridian s lon)) =~ Fin oy /\
          Point2D.y (snd (meridian s lon)) =~ Fin (oy + mh) /\
          Point2D.x (fst (meridian s lon)) = Point2D.x (snd (meridian s lon))) /\
      (0 <= mw -> 0 <= mh ->
       Forall (insideRect mw mh ox oy 0) (pathPoints cmds)).
Proof.
  intros fuel s mw mh ox oy Hp Hfuel.
  replace fuel with (7 + (fuel - 7))%nat by lia.
  unfold drawWireframeGrid.
  rewrite (forUpTo_more 7 _ _ _ _ _ _ (forUpTo_parallels _)).
  rewrite (forUpTo_more 7 _ _ _ _ _ _ (forUpTo_meridians _)).
  eexists. split; [reflexivity|].
  split; [reflexivity|]. split; [reflexivity|].
  split; [|split].
  - intros lat. unfold parallel. cbn [fst snd].
    rewrite !(latLonToXY_finite s mw mh ox oy Hp). cbn [Point2D.x Point2D.y eqv].
    repeat split; field.
  - intros lon. unfold meridian. cbn [fst snd].
    rewrite !(latLonToXY_finite s mw mh ox oy Hp). cbn [Point2D.x Point2D.y eqv].
    repeat split; field.
  - intros Hw Hh.
    cbn [pathPoints flat_map app strokeSegment].
    unfold US_LON_MIN, US_LON_MAX, US_LAT_MIN, US_LAT_MAX.
    repeat (constructor;
            [rewrite (latLonToXY_finite s mw mh ox oy Hp);
             unfold insideRect; cbn [Point2D.x Point2D.y];
             rewrite x_slope, y_slope; repeat split; nra|]).
    constructor.
Qed.

(** The grid of the sample map, with room for ten tests of each loop. *)
Lemma drawWireframeGrid_lines_witness :
  projectionIs sampleProjected 590 260 10 20 /\ (7 <= 10)%nat /\
  0 <= 590 /\ 0 <= 260 /\
  exists cmds,
    drawWireframeGrid 10 sampleProjected = Some cmds /\
    List.length (filter isStroke cmds) = 12%nat /\
    Forall (insideRect 590 260 10 20 0) (pathPoints cmds).
Proof.
  assert (Hp : projectionIs sampleProjected 590 260 10 20) by (repeat split).
  assert (Hf : (7 <= 10)%nat) by (repeat constructor).
  assert (Hw : 0 <= 590) by discriminate.
  assert (Hh : 0 <= 260) by discriminate.
  do 4 (split; [assumption|]).
  destruct (drawWireframeGrid_lines 10 _ _ _ _ _ Hp Hf)
    as (cmds & E & _ & Hn & _ & _ & Hin).
  exists cmds. split; [exact E|]. split; [exact Hn|]. exact (Hin Hw Hh).
Defined.

(** ** The connection lines *)

Lemma segmentsFrom_strokeSegment cur s lat1 lon1 lat2 lon2 rest :
  segmentsFrom cur
    (strokeSegment (latLonToXY s lat1 lon1) (latLonToXY s lat2 lon2) ++ rest)
  = (latLonToXY s lat1 lon1, latLonToXY s lat2 lon2)
      :: segmentsFrom (Some (latLonToXY s lat2 lon2)) rest.
Proof. reflexivity. Qed.

Lemma lookup_valid i :
  (i < List.length edgeLocations)%nat ->
  exists loc, nth_error edgeLocations i = Some loc.
Proof.
  intros H. destruct (nth_error edgeLocations i) as [loc|] eqn:E; [eauto|].
  apply nth_error_None in E. lia.
Qed.

Lemma forEachConnection_valid s conns :
  Forall validConnection conns ->
  forall cur,
  exists cmds,
    forEachConnection s conns = (cmds, Normal) /\
    segmentsFrom cur cmds = map (connectionSegment s) conns /\
    List.length (filter isStroke cmds) = List.length conns.
Proof.
  induction 1 as [|c rest [Hf Ht] Hrest IH]; intros cur.
  - exists []. repeat split.
  - cbn [forEachConnection].
    destruct (lookup_valid _ Hf) as (a & Ea). destruct (lookup_valid _ Ht) as (b & Eb).
    rewrite Ea, Eb.
    destruct (IH (Some (latLonToXY s (EdgeLocation.lat b) (EdgeLocation.lon b))))
      as (cmds & -> & Hs & Hn).
    eexists. split; [reflexivity|].
    rewrite segmentsFrom_strokeSegment, Hs. split.
    + cbn [map]. f_equal. unfold connectionSegment, locationPoint.
      now rewrite Ea, Eb.
    + change (S (List.length (filter isStroke cmds)) = S (List.length rest)).
      now f_equal.
Qed.

Lemma forEachConnection_invalid s before c rest :
  Forall validConnection before ->
  ~ validConnection c ->
  forall cur,
  exists cmds,
    forEachConnection s (before ++ c :: rest) = (cmds, TypeError) /\
    segmentsFrom cur cmds = map (connectionSegment s) before.
Proof.
  intros Hb Hc. induction Hb as [|d before [Hf Ht] Hbefore IH]; intros cur.
  - exists []. split; [|reflexivity]. cbn [app forEachConnection].
    destruct (nth_error edgeLocations (Connection.from c)) as [a|] eqn:Ea;
      [|reflexivity].
    destruct (nth_error edgeLocations (Connection.to c)) as [b|] eqn:Eb;
      [|reflexivity].
    exfalso. apply Hc. split; apply nth_error_Some; congruence.
  - cbn [app forEachConnection].
    destruct (lookup_valid _ Hf) as (a & Ea). destruct (lookup_valid _ Ht) as (b & Eb).
    rewrite Ea, Eb.
    destruct (IH (Some (latLonToXY s (EdgeLocation.lat b) (EdgeLocation.lon b))))
      as (cmds & -> & Hs).
    eexists. split; [reflexivity|].
    rewrite segmentsFrom_strokeSegment, Hs.
    cbn [map]. f_equal. unfold connectionSegment, locationPoint.
    now rewrite Ea, Eb.
Qed.

Lemma generated_connections_valid :
  Forall validConnection (generateConnectionsFor (List.length edgeLocations) []).
Proof.
  apply Forall_forall. intros c Hc.
  rewrite generateConnectionsFor_mesh in Hc. apply in_meshFrom in Hc.
  unfold validConnection. lia.
Qed.

(** X6.  When both ends of every connection are indices of the location
    list, the connection layer returns normally and strokes one segment for
    each connection, in order, from the projection of its first location to
    the projection of its second.  This is so in every reachable state, where
    it strokes the 378 segments of the mesh. *)
Theorem drawConnectionLines_draws_mesh :
  (forall s,
      Forall validConnection (connections s) ->
      exists cmds,
        drawConnectionLines s = (cmds, Normal) /\
        segmentsOf cmds = map (connectionSegment s) (connections s) /\
        List.length (filter isStroke cmds) = List.length (connections s)) /\
  (forall rnd w,
      reachable rnd w ->
      exists cmds,
        drawConnectionLines (fst w) = (cmds, Normal) /\
        List.length (segmentsOf cmds) = 378%nat).
Proof.
  assert (H : forall s,
      Forall validConnection (connections s) ->
      exists cmds,
        drawConnectionLines s = (cmds, Normal) /\
        segmentsOf cmds = map (connectionSegment s) (connections s) /\
        List.length (filter isStroke cmds) = List.length (connections s)).
  { intros s Hv. unfold drawConnectionLines.
    destruct (forEachConnection_valid s _ Hv None) as (cmds & -> & Hs & Hn).
    eexists. split; [reflexivity|]. split; [exact Hs | exact Hn]. }
  split; [exact H|].
  intros rnd w Hr. pose proof (reachable_connections rnd w Hr) as E.
  destruct (H (fst w)) as (cmds & Ed & Hs & _).
  { rewrite E. apply generated_connections_valid. }
  exists cmds. split; [exact Ed|]. rewrite Hs, length_map, E. reflexivity.
Qed.

(** The mesh generated on the sample projection, and the mesh of the sample
    map a frame after its construction. *)
Lemma drawConnectionLines_draws_mesh_witness :
  Forall validConnection (connections (generateConnections sampleProjected)) /\
  (exists cmds,
      drawConnectionLines (generateConnections sampleProjected) = (cmds, Normal) /\
      List.length (filter isStroke cmds)
      = List.length (connections (generateConnections sampleProjected))) /\
  reachable sampleRandom (handle sampleRandom Frame sampleWorld) /\
  exists cmds,
    drawConnectionLines (fst (handle sampleRandom Frame sampleWorld))
    = (cmds, Normal) /\
    List.length (segmentsOf cmds) = 378%nat.
Proof.
  assert (Hv : Forall validConnection
                 (connections (generateConnections sampleProjected)))
    by exact generated_connections_valid.
  assert (Hr : reachable sampleRandom (handle sampleRandom Frame sampleWorld)).
  { apply reach_handle.
    exact (reach_construct sampleRandom _ _ _ _ _ _ sampleWorld_constructed). }
  split; [exact Hv|]. split.
  - destruct (proj1 drawConnectionLines_draws_mesh _ Hv) as (cmds & E & _ & Hn).
    exists cmds. split; [exact E | exact Hn].
  - split; [exact Hr|].
    exact (proj2 drawConnectionLines_draws_mesh sampleRandom _ Hr).
Defined.

(** X7.  A connection with an end outside the location list makes the
    connection layer throw: the connections before it are stroked, nothing is
    drawn for it or for any connection after it. *)
Theorem drawConnectionLines_stops_at_bad_index :
  forall s before c rest,
    connections s = before ++ c :: rest ->
    Forall validConnection before ->
    ~ validConnection c ->
    exists cmds,
      drawConnectionLines s = (cmds, TypeError) /\
      segmentsOf cmds = map (connectionSegment s) before.
Proof.
  intros s before c rest E Hb Hc. unfold drawConnectionLines. rewrite E.
  destruct (forEachConnection_invalid s before c rest Hb Hc None) as (cmds & -> & Hs).
  eexists. split; [reflexivity | exact Hs].
Qed.

(** Of three connections whose second names location 28, only the first is
    stroked. *)
Lemma drawConnectionLines_stops_at_bad_index_witness :
  connections sampleBadMesh
  = [Connection.mk 0 1] ++ Connection.mk 2 28 :: [Connection.mk 3 4] /\
  Forall validConnection [Connection.mk 0 1] /\
  ~ validConnection (Connection.mk 2 28) /\
  exists cmds,
    drawConnectionLines sampleBadMesh = (cmds, TypeError) /\
    segmentsOf cmds = [connectionSegment sampleBadMesh (Connection.mk 0 1)].
Proof.
  assert (E : connections sampleBadMesh
              = [Connection.mk 0 1] ++ Connection.mk 2 28 :: [Connection.mk 3 4])
    by reflexivity.
  assert (Hb : Forall validConnection [Connection.mk 0 1]).
  { repeat constructor. }
  assert (Hc : ~ validConnection (Connection.mk 2 28)).
  { intros [_ H]. apply Nat.lt_irrefl in H. exact H. }
  do 3 (split; [assumption|]).
  exact (drawConnectionLines_stops_at_bad_index _ _ _ _ E Hb Hc).
Defined.

(** ** The markers of the locations *)

Lemma edgeLocations_in_box : Forall locationInBox edgeLocations.
Proof.
  repeat (constructor; [repeat split; discriminate|]). constructor.
Qed.

Lemma locationPoint_inside s mw mh ox oy i :
  projectionIs s mw mh ox oy -> 0 <= mw -> 0 <= mh ->
  (i < List.length edgeLocations)%nat ->
  insideRect mw mh ox oy 0 (locationPoint s i).
Proof.
  intros Hp Hw Hh Hi. unfold locationPoint.
  destruct (nth_error edgeLocations i) as [loc|] eqn:E.
  - pose proof edgeLocations_in_box as H. rewrite Forall_forall in H.
    specialize (H loc (nth_error_In _ _ E)). unfold locationInBox in H.
    destruct (EdgeLocation.lat loc) as [lat | | |]; try contradiction.
    destruct (EdgeLocation.lon loc) as [lon | | |]; try contradiction.
    now apply (latLonToXY_inside s mw mh ox oy).
  - apply nth_error_None in E. lia.
Qed.

Lemma markerSize_bounds Math_sin n index :
  boundedSine Math_sin ->
  exists size,
    markerSize Math_sin (Fin n * Fin 0.001)%num index = Fin size /\
    3 <= size <= 5.
Proof.
  intros Hsin. unfold markerSize. cbn [mul add of_nat].
  match goal with
  | |- context [Math_sin (Fin ?a)] =>
      pose proof (Hsin (Fin a) I) as H; destruct (Math_sin (Fin a)) as [v | | |]
  end; try contradiction.
  cbn [mul add]. eexists. split; [reflexivity|]. lra.
Qed.

Lemma triangleWave_bounded : boundedSine triangleWave.
Proof.
  intros [q | | |] Hq; try contradiction. unfold triangleWave.
  set (r := q - inject_Z (4 * Qfloor (q / 4))).
  assert (Hr : 0 <= r < 4).
  { unfold r. rewrite inject_Z_mult.
    pose proof (Qfloor_le (q / 4)) as H1. pose proof (Qlt_floor (q / 4)) as H2.
    rewrite inject_Z_plus in H2.
    change (inject_Z 4) with 4. change (inject_Z 1) with 1 in H2.
    assert (E : q == 4 * (q / 4)) by field.
    generalize dependent (inject_Z (Qfloor (q / 4))).
    generalize dependent (q / 4). intros. lra. }
  destruct (Qle_bool r 1) eqn:E1.
  - apply Qle_bool_iff in E1. lra.
  - assert (~ r <= 1) by (rewrite <- Qle_bool_iff; congruence).
    destruct (Qle_bool r 3) eqn:E3.
    + apply Qle_bool_iff in E3. lra.
    + assert (~ r <= 3) by (rewrite <- Qle_bool_iff; congruence). lra.
Qed.

(** X8.  Whatever the time, when [Math.sin] stays in [[-1, 1]] the marker
    layer draws for each of the 28 locations, in order, two circles centred
    on the projection of the location: a glow of radius 2.5 times the marker
    size and a dot of the marker size, with the marker size between 3 and 5
    pixels.  With a finite, non-negative map size every marker is centred
    inside the map rectangle. *)
Theorem drawEdgeLocations_markers :
  forall Math_sin Math_PI s n,
    boundedSine Math_sin ->
    let cmds := drawEdgeLocations Math_sin Math_PI (Fin n) s in
    let size := markerSize Math_sin (Fin n * Fin 0.001)%num in
    arcsOf cmds
    = flat_map (fun i => [(locationPoint s i, (size i * Fin 2.5)%num);
                          (locationPoint s i, size i)])
               (seq 0 (List.length edgeLocations)) /\
    (forall i, exists r, size i = Fin r /\ 3 <= r <= 5) /\
    (forall mw mh ox oy i,
        projectionIs s mw mh ox oy -> 0 <= mw -> 0 <= mh ->
        (i < List.length edgeLocations)%nat ->
        insideRect mw mh ox oy 0 (locationPoint s i)).
Proof.
  intros Math_sin Math_PI s n Hsin cmds size.
  split; [reflexivity|]. split.
  - intros i. now apply markerSize_bounds.
  - intros mw mh ox oy i. apply locationPoint_inside.
Qed.

(** The marker of Seattle on the sample map, 1.7 seconds into the epoch,
    under a triangle wave. *)
Lemma drawEdgeLocations_markers_witness :
  boundedSine triangleWave /\
  projectionIs sampleProjected 590 260 10 20 /\ 0 <= 590 /\ 0 <= 260 /\
  (27 < List.length edgeLocations)%nat /\
  (exists r, markerSize triangleWave (Fin 1700 * Fin 0.001)%num 27 = Fin r /\
             3 <= r <= 5) /\
  insideRect 590 260 10 20 0 (locationPoint sampleProjected 27).
Proof.
  assert (Hp : projectionIs sampleProjected 590 260 10 20) by (repeat split).
  assert (Hw : 0 <= 590) by discriminate.
  assert (Hh : 0 <= 260) by discriminate.
  assert (Hi : (27 < List.length edgeLocations)%nat) by (repeat constructor).
  split; [exact triangleWave_bounded|].
  do 4 (split; [assumption|]).
  destruct (drawEdgeLocations_markers triangleWave (Fin 3) sampleProjected 1700
              triangleWave_bounded) as (_ & Hsize & Hin).
  split; [exact (Hsize 27%nat) | exact (Hin _ _ _ _ _ Hp Hw Hh Hi)].
Defined.

(** ** Where packets are drawn *)

Lemma packetPosition_bounds ax ay bx by_ t :
  0 <= t <= 1 ->
  exists px py,
    packetPosition (Point2D.mk (Fin ax) (Fin ay)) (Point2D.mk (Fin bx) (Fin by_)) (Fin t)
    = Point2D.mk (Fin px) (Fin py) /\
    Qmin ax bx <= px <= Qmax ax bx /\
    Qmin ay by_ - 25 <= py <= Qmax ay by_.
Proof.
  intros [Ht0 Ht1]. rewrite packetPosition_finite. eexists. eexists.
  split; [reflexivity|].
  assert (Hu : 0 <= t * (1 - t)) by (apply Qmult_le_0_compat; lra).
  assert (Htt : 0 <= t * t) by (apply Qmult_le_0_compat; lra).
  assert (Hss : 0 <= (1 - t) * (1 - t)) by (apply Qmult_le_0_compat; lra).
  assert (Hq : 4 * (t * (1 - t)) <= 1).
  { destruct (Qlt_le_dec (2 * t) 1) as [Hl | Hl].
    - assert (0 <= (1 - 2 * t) * (1 - 2 * t)) by (apply Qmult_le_0_compat; lra).
      lra.
    - assert (0 <= (2 * t - 1) * (2 * t - 1)) by (apply Qmult_le_0_compat; lra).
      lra. }
  assert (Ex : (1 - t) * (1 - t) * ax + 2 * (1 - t) * t * ((ax + bx) / 2) + t * t * bx
               == (1 - t) * ax + t * bx) by field.
  rewrite Ex.
  pose proof (Q.le_min_l ax bx). pose proof (Q.le_min_r ax bx).
  pose proof (Q.le_max_l ax bx). pose proof (Q.le_max_r ax bx).
  pose proof (Q.le_min_l ay by_). pose proof (Q.le_min_r ay by_).
  pose proof (Q.le_max_l ay by_). pose proof (Q.le_max_r ay by_).
  generalize dependent (Qmin ax bx). generalize dependent (Qmax ax bx).
  generalize dependent (Qmin ay by_). generalize dependent (Qmax ay by_).
  intros. repeat split; nra.
Qed.

(** X9.  Between two finite points, at any progress from 0 to 1, the packet
    is horizontally between the two points, moving linearly from the first
    to the second; vertically it is never below the lower of the two and
    never more than 25 pixels above the higher one. *)
Theorem packetPosition_stays_near_chord :
  forall ax ay bx by_ t,
    0 <= t <= 1 ->
    exists px py,
      packetPosition (Point2D.mk (Fin ax) (Fin ay)) (Point2D.mk (Fin bx) (Fin by_))
                     (Fin t)
      = Point2D.mk (Fin px) (Fin py) /\
      px == (1 - t) * ax + t * bx /\
      Qmin ax bx <= px <= Qmax ax bx /\
      Qmin ay by_ - 25 <= py <= Qmax ay by_.
Proof.
  intros ax ay bx by_ t Ht.
  destruct (packetPosition_bounds ax ay bx by_ t Ht) as (px & py & E & Hx & Hy).
  exists px, py. repeat split; try tauto.
  rewrite packetPosition_finite in E. injection E as <- _. field.
Qed.

(** Halfway between (100, 200) and (300, 120). *)
Lemma packetPosition_stays_near_chord_witness :
  0 <= 0.5 <= 1 /\
  exists px py,
    packetPosition (Point2D.mk (Fin 100) (Fin 200)) (Point2D.mk (Fin 300) (Fin 120))
                   (Fin 0.5)
    = Point2D.mk (Fin px) (Fin py) /\
    Qmin 200 120 - 25 <= py <= Qmax 200 120.
Proof.
  assert (Ht : 0 <= 0.5 <= 1) by (split; discriminate).
  split; [exact Ht|].
  destruct (packetPosition_stays_near_chord 100 200 300 120 0.5 Ht)
    as (px & py & E & _ & _ & Hy).
  exists px, py. split; [exact E | exact Hy].
Defined.

Lemma locatePacket_inside s mw mh ox oy p xy :
  projectionIs s mw mh ox oy -> 0 <= mw -> 0 <= mh ->
  validPacket p ->
  locatePacket s p = Some xy ->
  insideRect mw mh ox oy 25 xy.
Proof.
  intros Hp Hw Hh (Hf & Ht & Hprog & _) E. unfold locatePacket in E.
  destruct Hf as (i & Ei & Hi). destruct Ht as (j & Ej & Hj).
  rewrite Ei, Ej, !array_get_of_nat in E.
  destruct (nth_error edgeLocations i) as [a|] eqn:Ea; [|discriminate].
  destruct (nth_error edgeLocations j) as [b|] eqn:Eb; [|discriminate].
  injection E as <-.
  pose proof edgeLocations_in_box as H. rewrite Forall_forall in H.
  pose proof (H a (nth_error_In _ _ Ea)) as Ha.
  pose proof (H b (nth_error_In _ _ Eb)) as Hb.
  unfold locationInBox in Ha, Hb.
  destruct (EdgeLocation.lat a) as [la | | |]; try contradiction.
  destruct (EdgeLocation.lon a) as [lo | | |]; try contradiction.
  destruct (EdgeLocation.lat b) as [lb | | |]; try contradiction.
  destruct (EdgeLocation.lon b) as [lp | | |]; try contradiction.
  pose proof (latLonToXY_inside s mw mh ox oy la lo Hp Hw Hh Ha) as Ia.
  pose proof (latLonToXY_inside s mw mh ox oy lb lp Hp Hw Hh Hb) as Ib.
  rewrite !(latLonToXY_finite s mw mh ox oy Hp) in *.
  unfold unitInterval in Hprog.
  destruct (DataPacket.progress p) as [t | | |]; try contradiction.
  match goal with
  | |- context [packetPosition (Point2D.mk (Fin ?ax) (Fin ?ay))
                               (Point2D.mk (Fin ?bx) (Fin ?by_)) _] =>
      destruct (packetPosition_bounds ax ay bx by_ t ltac:(lra))
        as (px & py & -> & Hx & Hy);
      pose proof (Q.min_spec ax bx); pose proof (Q.max_spec ax bx);
      pose proof (Q.min_spec ay by_); pose proof (Q.max_spec ay by_);
      generalize dependent (Qmin ax bx); generalize dependent (Qmax ax bx);
      generalize dependent (Qmin ay by_); generalize dependent (Qmax ay by_);
      generalize dependent ax; generalize dependent ay;
      generalize dependent bx; generalize dependent by_
  end.
  unfold insideRect. cbn [Point2D.x Point2D.y]. intros. repeat split; lra.
Qed.

(** X10.  With [Math.random] in [[0,1)], in a reachable state whose map size
    is finite and not negative, a frame draws every packet, and draws it
    between the left and right sides of the map rectangle, not below its
    bottom and at most 25 pixels above its top. *)
Theorem packets_drawn_inside_map :
  forall rnd w mw mh ox oy,
    unitRandom rnd ->
    reachable rnd w ->
    projectionIs (fst w) mw mh ox oy -> 0 <= mw -> 0 <= mh ->
    exists s' k' positions,
      drawDataPackets rnd (fst w) (snd w) = (s', k', positions, Normal) /\
      List.length positions = List.length (dataPackets (fst w)) /\
      Forall (insideRect mw mh ox oy 25) positions.
Proof.
  intros rnd [s k] mw mh ox oy Hrnd Hr Hp Hw Hh. simpl in *.
  pose proof (reachable_valid rnd Hrnd _ Hr) as Hv. simpl in Hv.
  unfold drawDataPackets.
  destruct (forEachPacket_valid rnd Hrnd s (dataPackets s) k Hv)
    as (ps' & dr & k' & -> & H1 & H2 & H3).
  eexists. eexists. eexists. split; [reflexivity|]. split.
  - apply Forall2_length in H2, H3. congruence.
  - clear H2. induction H3 as [|p xy ps dr Hxy H3 IH]; [constructor|].
    inversion H1; subst. constructor; [|now apply IH].
    now apply (locatePacket_inside s mw mh ox oy p).
Qed.

(** The sample map resized to a phone: all 25 packets are drawn in range. *)
Lemma packets_drawn_inside_map_witness :
  unitRandom sampleRandom /\
  reachable sampleRandom
    (handle sampleRandom (Resize (Window.mk (Fin 375) (Fin 667) (Fin 3) false))
            sampleWorld) /\
  exists mw mh ox oy,
    projectionIs
      (fst (handle sampleRandom
              (Resize (Window.mk (Fin 375) (Fin 667) (Fin 3) false)) sampleWorld))
      mw mh ox oy /\
    0 <= mw /\ 0 <= mh /\
    exists s' k' positions,
      drawDataPackets sampleRandom
        (fst (handle sampleRandom
                (Resize (Window.mk (Fin 375) (Fin 667) (Fin 3) false)) sampleWorld))
        (snd (handle sampleRandom
                (Resize (Window.mk (Fin 375) (Fin 667) (Fin 3) false)) sampleWorld))
      = (s', k', positions, Normal) /\
      Forall (insideRect mw mh ox oy 25) positions.
Proof.
  assert (Hr : reachable sampleRandom
                 (handle sampleRandom
                    (Resize (Window.mk (Fin 375) (Fin 667) (Fin 3) false))
                    sampleWorld)).
  { apply reach_handle.
    exact (reach_construct sampleRandom _ _ _ _ _ _ sampleWorld_constructed). }
  assert (Hv : viewportIs (Window.mk (Fin 375) (Fin 667) (Fin 3) false) 375 667).
  { repeat split; discriminate. }
  split; [exact sampleRandom_unit|]. split; [exact Hr|].
  destruct (resize_nonneg _ (fst sampleWorld) 375 667 Hv)
    as (mw & mh & ox & oy & Hp & Hmw & Hmh & _).
  exists mw, mh, ox, oy.
  split; [exact Hp|]. split; [exact (proj1 Hmw)|]. split; [exact (proj1 Hmh)|].
  destruct (packets_drawn_inside_map sampleRandom _ mw mh ox oy
              sampleRandom_unit Hr Hp (proj1 Hmw) (proj1 Hmh))
    as (s' & k' & positions & E & _ & Hin).
  exists s', k', positions. split; [exact E | exact Hin].
Defined.

(** ** What a frame keeps and what it consumes *)

Lemma advancePacket_speed rnd reduced p k :
  DataPacket.speed (fst (advancePacket rnd reduced p k)) = DataPacket.speed p.
Proof.
  unfold advancePacket. destruct (negb reduced); [|reflexivity].
  destruct (_ >=? _)%num; reflexivity.
Qed.

Lemma forEachPacket_speeds rnd s packets k :
  map DataPacket.speed (fst (fst (fst (forEachPacket rnd s packets k))))
  = map DataPacket.speed packets.
Proof.
  revert k. induction packets as [|p rest IH]; intros k; [reflexivity|].
  cbn [forEachPacket].
  pose proof (advancePacket_speed rnd (prefersReducedMotion s) p k) as Hs.
  destruct (advancePacket rnd (prefersReducedMotion s) p k) as [p' k1].
  cbn [fst] in Hs.
  destruct (locatePacket s p') as [xy|].
  - specialize (IH k1).
    destruct (forEachPacket rnd s rest k1) as [[[rest' dr] c] k2].
    cbn [fst map] in *. now rewrite Hs, IH.
  - cbn [fst map]. now rewrite Hs.
Qed.

Lemma pushPackets_length rnd n packets k :
  List.length (fst (pushPackets rnd n packets k)) = (List.length packets + n)%nat /\
  snd (pushPackets rnd n packets k) = (k + 4 * n)%nat.
Proof.
  revert packets k. induction n as [|n IH]; intros packets k; cbn [pushPackets].
  - cbn [fst snd]. lia.
  - destruct (IH (push packets (newPacket rnd k)) (k + 4)%nat) as [-> ->].
    unfold push. rewrite length_app. simpl. lia.
Qed.

(** X11.  No event adds, removes or reorders packets or changes a speed: a
    frame, even one that throws, a resize and a change of the motion
    preference leave the list of speeds as it was.  The number of packets is
    the one chosen at construction, 15 or 25, in every reachable state. *)
Theorem packets_keep_count_and_speed :
  (forall rnd e w,
      map DataPacket.speed (dataPackets (fst (handle rnd e w)))
      = map DataPacket.speed (dataPackets (fst w)) /\
      List.length (dataPackets (fst (handle rnd e w)))
      = List.length (dataPackets (fst w))) /\
  (forall rnd w,
      reachable rnd w ->
      List.length (dataPackets (fst w)) = 15%nat \/
      List.length (dataPackets (fst w)) = 25%nat).
Proof.
  assert (H : forall rnd e w,
      map DataPacket.speed (dataPackets (fst (handle rnd e w)))
      = map DataPacket.speed (dataPackets (fst w))).
  { intros rnd e [s k]. destruct e as [ | win | b]; cbn [handle fst].
    - unfold drawDataPackets.
      pose proof (forEachPacket_speeds rnd s (dataPackets s) k) as E.
      destruct (forEachPacket rnd s (dataPackets s) k) as [[[ps dr] c] k'].
      exact E.
    - now destruct (resize_keeps win s) as (-> & _).
    - reflexivity. }
  assert (Hl : forall rnd e w,
      List.length (dataPackets (fst (handle rnd e w)))
      = List.length (dataPackets (fst w))).
  { intros rnd e w. rewrite <- (length_map DataPacket.speed), H.
    apply length_map. }
  split; [intros; split; [apply H | apply Hl]|].
  intros rnd w Hr. induction Hr as [cv cx win nation k [s k'] Hc | e w Hr IH].
  - apply construct_built in Hc. destruct Hc as (_ & Hc & _).
    assert (E : dataPackets s
                = fst (pushPackets rnd
                         (if (Window.innerWidth win <? Fin 768)%num
                          then 15 else 25)%nat [] k))
      by now rewrite <- Hc.
    cbn [fst]. rewrite E.
    rewrite (proj1 (pushPackets_length rnd _ [] k)).
    destruct (Window.innerWidth win <? Fin 768)%num; [left | right]; reflexivity.
  - now rewrite Hl.
Qed.

(** The sample map was built for a desktop window: 25 packets, also two
    frames later. *)
Lemma packets_keep_count_and_speed_witness :
  reachable sampleRandom (frames sampleRandom 2 sampleWorld) /\
  (List.length (dataPackets (fst (frames sampleRandom 2 sampleWorld))) = 15%nat \/
   List.length (dataPackets (fst (frames sampleRandom 2 sampleWorld))) = 25%nat).
Proof.
  assert (Hr : reachable sampleRandom (frames sampleRandom 2 sampleWorld)).
  { change (frames sampleRandom 2 sampleWorld)
      with (handle sampleRandom Frame (handle sampleRandom Frame sampleWorld)).
    do 2 apply reach_handle.
    exact (reach_construct sampleRandom _ _ _ _ _ _ sampleWorld_constructed). }
  split; [exact Hr|].
  exact (proj2 packets_keep_count_and_speed sampleRandom _ Hr).
Defined.

Lemma advancePacket_moving rnd p k :
  advancePacket rnd false p k
  = if wraps p
    then (DataPacket.mk (randomIndex rnd k) (randomIndex rnd (k + 1)) (Fin 0)
                        (DataPacket.speed p), (k + 2)%nat)
    else (DataPacket.mk (DataPacket.from p) (DataPacket.to p)
                        (DataPacket.progress p + DataPacket.speed p)%num
                        (DataPacket.speed p), k).
Proof. reflexivity. Qed.

Lemma forEachPacket_calls rnd s packets k :
  unitRandom rnd ->
  prefersReducedMotion s = false ->
  Forall validPacket packets ->
  snd (forEachPacket rnd s packets k)
  = (k + 2 * List.length (filter wraps packets))%nat.
Proof.
  intros Hrnd Hm Hv. revert k.
  induction Hv as [|p rest Hp Hrest IH]; intros k; cbn [forEachPacket].
  - simpl. lia.
  - pose proof (advancePacket_valid rnd Hrnd false p k Hp) as Hp'.
    rewrite Hm, advancePacket_moving in *. cbn [filter].
    destruct (wraps p); cbn [fst] in Hp';
      match goal with
      | |- context [locatePacket s ?q] =>
          destruct (locatePacket_valid s q Hp') as (xy & ->)
      end.
    + specialize (IH (k + 2)%nat).
      destruct (forEachPacket rnd s rest (k + 2)) as [[[rest' dr] c] k2].
      cbn [snd] in *. rewrite IH. simpl. lia.
    + specialize (IH k).
      destruct (forEachPacket rnd s rest k) as [[[rest' dr] c] k2].
      cbn [snd] in *. exact IH.
Qed.

(** X12.  With [Math.random] in [[0,1)], a frame in a reachable state calls
    [Math.random] exactly twice for each packet that wraps, and not at all
    under reduced motion. *)
Theorem frame_random_calls :
  forall rnd w,
    unitRandom rnd ->
    reachable rnd w ->
    (prefersReducedMotion (fst w) = false ->
     snd (handle rnd Frame w)
     = (snd w + 2 * List.length (filter wraps (dataPackets (fst w))))%nat) /\
    (prefersReducedMotion (fst w) = true ->
     snd (handle rnd Frame w) = snd w).
Proof.
  intros rnd [s k] Hrnd Hr. cbn [fst snd handle]. split; intros Hm.
  - pose proof (reachable_valid rnd Hrnd _ Hr) as Hv. cbn [fst] in Hv.
    unfold drawDataPackets.
    pose proof (forEachPacket_calls rnd s (dataPackets s) k Hrnd Hm Hv) as E.
    destruct (forEachPacket rnd s (dataPackets s) k) as [[[ps dr] c] k'].
    exact E.
  - unfold drawDataPackets.
    destruct (forEachPacket_reduced rnd s (dataPackets s) k Hm) as (dr & c & -> & _).
    reflexivity.
Qed.

(** All 25 packets of the sample map wrap on its first frame, which takes
    the count of random calls from 100 to 150; once motion is reduced a frame
    leaves the count alone. *)
Lemma frame_random_calls_witness :
  unitRandom sampleRandom /\
  reachable sampleRandom sampleWorld /\
  prefersReducedMotion (fst sampleWorld) = false /\
  snd (handle sampleRandom Frame sampleWorld)
  = (snd sampleWorld
     + 2 * List.length (filter wraps (dataPackets (fst sampleWorld))))%nat /\
  reachable sampleRandom (handle sampleRandom (MotionChange true) sampleWorld) /\
  prefersReducedMotion
    (fst (handle sampleRandom (MotionChange true) sampleWorld)) = true /\
  snd (handle sampleRandom Frame
         (handle sampleRandom (MotionChange true) sampleWorld))
  = snd (handle sampleRandom (MotionChange true) sampleWorld).
Proof.
  assert (Hr : reachable sampleRandom sampleWorld)
    by exact (reach_construct sampleRandom _ _ _ _ _ _ sampleWorld_constructed).
  assert (Hm : prefersReducedMotion (fst sampleWorld) = false) by reflexivity.
  assert (Hr' : reachable sampleRandom
                  (handle sampleRandom (MotionChange true) sampleWorld))
    by (apply reach_handle; exact Hr).
  assert (Hm' : prefersReducedMotion
                  (fst (handle sampleRandom (MotionChange true) sampleWorld))
                = true) by reflexivity.
  split; [exact sampleRandom_unit|]. split; [exact Hr|]. split; [exact Hm|].
  split; [exact (proj1 (frame_random_calls sampleRandom _ sampleRandom_unit Hr) Hm)|].
  split; [exact Hr'|]. split; [exact Hm'|].
  exact (proj2 (frame_random_calls sampleRandom _ sampleRandom_unit Hr') Hm').
Defined.

(** ** A packet outside the location list *)

Lemma locatePacket_bad s p :
  array_get edgeLocations (DataPacket.from p) = None \/
  array_get edgeLocations (DataPacket.to p) = None ->
  locatePacket s p = None.
Proof.
  unfold locatePacket. intros [-> | ->]; [reflexivity|].
  now destruct (array_get edgeLocations (DataPacket.from p)).
Qed.

(** The step of a packet that does not wrap keeps its endpoints. *)
Lemma advancePacket_stays rnd reduced p k :
  reduced = true \/ wraps p = false ->
  advancePacket rnd reduced p k
  = (if reduced then p
     else DataPacket.mk (DataPacket.from p) (DataPacket.to p)
                        (DataPacket.progress p + DataPacket.speed p)%num
                        (DataPacket.speed p),
     k).
Proof.
  intros [-> | Hw]; [reflexivity|].
  destruct reduced; [reflexivity|]. now rewrite advancePacket_moving, Hw.
Qed.

Lemma forEachPacket_throws rnd s before p p' rest k :
  unitRandom rnd ->
  Forall validPacket before ->
  (forall j, advancePacket rnd (prefersReducedMotion s) p j = (p', j)) ->
  locatePacket s p' = None ->
  exists before' positions k',
    forEachPacket rnd s (before ++ p :: rest) k
    = (before' ++ p' :: rest, positions, TypeError, k') /\
    Forall2 (fun q q' =>
               exists j, q' = fst (advancePacket rnd (prefersReducedMotion s) q j))
            before before' /\
    Forall2 (fun q' xy => locatePacket s q' = Some xy) before' positions.
Proof.
  intros Hrnd Hb Hadv Hbad. revert k.
  induction Hb as [|q before Hq Hbefore IH]; intros k.
  - exists [], [], k. cbn [app forEachPacket]. rewrite Hadv, Hbad.
    repeat split; constructor.
  - cbn [app forEachPacket].
    pose proof (advancePacket_valid rnd Hrnd (prefersReducedMotion s) q k Hq) as Hq'.
    destruct (advancePacket rnd (prefersReducedMotion s) q k) as [q' k1] eqn:E.
    cbn [fst] in Hq'. destruct (locatePacket_valid s q' Hq') as (xy & Hxy).
    rewrite Hxy.
    destruct (IH k1) as (before' & positions & k2 & -> & H1 & H2).
    exists (q' :: before'), (xy :: positions), k2.
    repeat split; constructor; trivial.
    exists k. now rewrite E.
Qed.

(** X13.  With [Math.random] in [[0,1)], when a packet that does not wrap in
    this frame has a source or a destination outside the location list, the
    packet layer throws on it: it is not drawn, although its progress has
    been advanced unless motion is reduced; the valid packets before it are
    advanced and drawn, and the packets after it are neither advanced nor
    drawn. *)
Theorem drawDataPackets_stops_at_bad_packet :
  forall rnd s before p rest k,
    unitRandom rnd ->
    dataPackets s = before ++ p :: rest ->
    Forall validPacket before ->
    prefersReducedMotion s = true \/ wraps p = false ->
    array_get edgeLocations (DataPacket.from p) = None \/
    array_get edgeLocations (DataPacket.to p) = None ->
    exists before' positions k',
      drawDataPackets rnd s k
      = (set_dataPackets
           (before'
              ++ (if prefersReducedMotion s then p
                  else DataPacket.mk (DataPacket.from p) (DataPacket.to p)
                         (DataPacket.progress p + DataPacket.speed p)%num
                         (DataPacket.speed p))
              :: rest) s,
         k', positions, TypeError) /\
      Forall2 (fun q q' =>
                 exists j, q' = fst (advancePacket rnd (prefersReducedMotion s) q j))
              before before' /\
      Forall2 (fun q' xy => locatePacket s q' = Some xy) before' positions /\
      List.length positions = List.length before.
Proof.
  intros rnd s before p rest k Hrnd E Hb Hstay Hbad.
  unfold drawDataPackets. rewrite E.
  destruct (forEachPacket_throws rnd s before p _ rest k Hrnd Hb
              (fun j => advancePacket_stays rnd _ p j Hstay))
    as (before' & positions & k' & -> & H1 & H2).
  - apply locatePacket_bad. now destruct (prefersReducedMotion s).
  - exists before', positions, k'. split; [reflexivity|].
    split; [exact H1|]. split; [exact H2|].
    apply Forall2_length in H1, H2. congruence.
Qed.

(** Of three packets under reduced motion whose second starts from location
    28, only the first is drawn. *)
Lemma drawDataPackets_stops_at_bad_packet_witness :
  unitRandom sampleRandom /\
  dataPackets sampleBadPackets
  = [DataPacket.mk (Fin 5) (Fin 21) (Fin 0.5) (Fin 0.004)]
      ++ DataPacket.mk (Fin 28) (Fin 3) (Fin 0.25) (Fin 0.003)
      :: [DataPacket.mk (Fin 1) (Fin 2) (Fin 0.75) (Fin 0.002)] /\
  Forall validPacket [DataPacket.mk (Fin 5) (Fin 21) (Fin 0.5) (Fin 0.004)] /\
  prefersReducedMotion sampleBadPackets = true /\
  array_get edgeLocations (Fin 28) = None /\
  exists s' k' positions,
    drawDataPackets sampleRandom sampleBadPackets 0 = (s', k', positions, TypeError) /\
    List.length positions = 1%nat.
Proof.
  assert (E : dataPackets sampleBadPackets
              = [DataPacket.mk (Fin 5) (Fin 21) (Fin 0.5) (Fin 0.004)]
                  ++ DataPacket.mk (Fin 28) (Fin 3) (Fin 0.25) (Fin 0.003)
                  :: [DataPacket.mk (Fin 1) (Fin 2) (Fin 0.75) (Fin 0.002)])
    by reflexivity.
  assert (Hb : Forall validPacket
                 [DataPacket.mk (Fin 5) (Fin 21) (Fin 0.5) (Fin 0.004)]).
  { constructor; [|constructor]. split; [|split; [|split]].
    - exists 5%nat. split; [reflexivity | repeat constructor].
    - exists 21%nat. split; [reflexivity | repeat constructor].
    - split; [discriminate | reflexivity].
    - split; [discriminate | reflexivity]. }
  assert (Hm : prefersReducedMotion sampleBadPackets = true) by reflexivity.
  assert (Hbad : array_get edgeLocations (Fin 28) = None) by reflexivity.
  split; [exact sampleRandom_unit|].
  do 4 (split; [assumption|]).
  destruct (drawDataPackets_stops_at_bad_packet sampleRandom sampleBadPackets
              _ _ _ 0%nat sampleRandom_unit E Hb (or_introl Hm) (or_introl Hbad))
    as (before' & positions & k' & Ed & _ & _ & Hl).
  eexists. exists k', positions. split; [exact Ed | exact Hl].
Defined.

(** ** The drawing surface *)








(** ** The size of the map *)

(** X15.  On a viewport of finite, non-negative size the map keeps the
    aspect ratio of the bounding box, 59 to 26.  On a relatively wider
    viewport its height is 80% of the viewport's, otherwise its width is 90%
    of the viewport's; either way it takes at most 90% of each dimension and
    leaves a margin of at least 5% on every side.  A viewport of positive
    size gives a map of positive size; a viewport of zero width or height
    gives a map of size zero, and never an infinite or undefined one. *)
Theorem resize_keeps_aspect_ratio :
  forall win s w h,
    viewportIs win w h ->
    exists mw mh ox oy,
      projectionIs (resize win s) mw mh ox oy /\
      26 * mw == 59 * mh /\
      (59 * h < 26 * w -> mh == 0.8 * h) /\
      (26 * w <= 59 * h -> mw == 0.9 * w) /\
      mw <= 0.9 * w /\ mh <= 0.9 * h /\
      0.05 * w <= ox /\ 0.05 * h <= oy /\
      (0 < w -> 0 < h -> 0 < mw /\ 0 < mh) /\
      (w == 0 \/ h == 0 -> mw == 0 /\ mh == 0).
Proof.
  intros win s w h Hv.
  destruct (resize_finite win s w h Hv) as (mw & mh & Hp & _ & _ & Hwide & Htall).
  destruct Hv as (_ & _ & Hw & Hh).
  exists mw, mh, ((w - mw) / 2), ((h - mh) / 2). split; [exact Hp|].
  assert (Eox : (w - mw) / 2 == (w - mw) * (1 # 2)) by field.
  assert (Eoy : (h - mh) / 2 == (h - mh) * (1 # 2)) by field.
  rewrite Eox, Eoy.
  destruct (Qlt_le_dec (59 * h) (26 * w)) as [H | H].
  - destruct (Hwide H) as [E1 E2].
    repeat split; intros; lra.
  - destruct (Htall H) as [E1 E2].
    repeat split; intros; lra.
Qed.

(** A window of 1280 by 720 is relatively narrower than the box: the map is
    90% of its width, and of positive size. *)
Lemma resize_keeps_aspect_ratio_witness :
  viewportIs sampleWindow 1280 720 /\ 26 * 1280 <= 59 * 720 /\
  0 < 1280 /\ 0 < 720 /\
  exists mw mh ox oy,
    projectionIs (resize sampleWindow blankMap) mw mh ox oy /\
    26 * mw == 59 * mh /\ mw == 0.9 * 1280 /\ 0 < mw /\ 0 < mh.
Proof.
  assert (Hv : viewportIs sampleWindow 1280 720).
  { repeat split; discriminate. }
  assert (Ht : 26 * 1280 <= 59 * 720) by discriminate.
  assert (Hw : 0 < 1280) by reflexivity.
  assert (Hh : 0 < 720) by reflexivity.
  do 4 (split; [assumption|]).
  destruct (resize_keeps_aspect_ratio sampleWindow blankMap 1280 720 Hv)
    as (mw & mh & ox & oy & Hp & Hr & _ & Htall & _ & _ & _ & _ & Hpos & _).
  exists mw, mh, ox, oy. split; [exact Hp|]. split; [exact Hr|].
  split; [exact (Htall Ht) | exact (Hpos Hw Hh)].
Defined.

(** ** The constructor *)



(** ** A whole frame *)

Lemma drawWireframeGrid_total fuel s :
  (7 <= fuel)%nat -> exists grid, drawWireframeGrid fuel s = Some grid.
Proof.
  intros Hfuel. replace fuel with (7 + (fuel - 7))%nat by lia.
  unfold drawWireframeGrid.
  rewrite (forUpTo_more 7 _ _ _ _ _ _ (forUpTo_parallels _)).
  rewrite (forUpTo_more 7 _ _ _ _ _ _ (forUpTo_meridians _)).
  eexists. reflexivity.
Qed.

(** X17.  With [Math.random] in [[0,1)], a call of [animate] in a reachable
    state returns normally and schedules the next frame.  It clears the
    viewport and then draws, in this order, the grid, the border, the
    connection lines, the markers and the packets; it changes the state and
    the count of random calls as the packet step alone does, and the state it
    leaves is reachable again. *)
Theorem animate_composes_layers :
  forall rnd Math_sin Math_PI fuel now w,
    unitRandom rnd ->
    reachable rnd w ->
    (7 <= fuel)%nat ->
    exists grid lines positions,
      drawWireframeGrid fuel (fst w) = Some grid /\
      drawConnectionLines (fst w) = (lines, Normal) /\
      drawDataPackets rnd (fst w) (snd w)
      = (fst (handle rnd Frame w), snd (handle rnd Frame w), positions, Normal) /\
      animate Math_sin Math_PI rnd fuel now (fst w) (snd w)
      = Some
          (mkFrameResult
             (fst (handle rnd Frame w)) (snd (handle rnd Frame w))
             ([Draw.clearRect (Fin 0) (Fin 0) (width (fst w)) (height (fst w))]
                ++ grid
                ++ drawUSBorder (fst w)
                ++ lines
                ++ drawEdgeLocations Math_sin Math_PI now (fst w)
                ++ flat_map (drawPacketAt Math_PI) positions)
             Normal true) /\
      reachable rnd (handle rnd Frame w).
Proof.
  intros rnd Math_sin Math_PI fuel now [s k] Hrnd Hr Hfuel. cbn [fst snd].
  destruct (drawWireframeGrid_total fuel s Hfuel) as (grid & Eg).
  pose proof (reachable_connections rnd _ Hr) as Ec. cbn [fst] in Ec.
  assert (Hv : Forall validConnection (connections s))
    by (rewrite Ec; apply generated_connections_valid).
  assert (El : exists lines, drawConnectionLines s = (lines, Normal)).
  { unfold drawConnectionLines.
    destruct (forEachConnection_valid s _ Hv None) as (cmds & -> & _).
    eexists. reflexivity. }
  destruct El as (lines & El).
  pose proof (reachable_valid rnd Hrnd _ Hr) as Hp. cbn [fst] in Hp.
  destruct (drawDataPackets_valid rnd Hrnd s k Hp) as (_ & Hn).
  destruct (drawDataPackets rnd s k) as [[[s' k'] positions] c] eqn:Ed.
  cbn [snd] in Hn. subst c.
  exists grid, lines, positions.
  split; [exact Eg|]. split; [exact El|].
  assert (Eh : handle rnd Frame (s, k) = (s', k')).
  { cbn [handle]. now rewrite Ed. }
  rewrite Eh. cbn [fst snd]. split; [reflexivity|]. split.
  - unfold animate. rewrite Eg, El, Ed. rewrite <- !app_assoc. reflexivity.
  - rewrite <- Eh. now apply reach_handle.
Qed.

(** The first frame of the sample map. *)
Lemma animate_composes_layers_witness :
  unitRandom sampleRandom /\ reachable sampleRandom sampleWorld /\ (7 <= 8)%nat /\
  exists r,
    animate triangleWave (Fin 3) sampleRandom 8 (Fin 1700)
            (fst sampleWorld) (snd sampleWorld)
    = Some r /\
    completion r = Normal /\ rescheduled r = true /\
    (after r, randomCalls r) = handle sampleRandom Frame sampleWorld.
Proof.
  assert (Hr : reachable sampleRandom sampleWorld)
    by exact (reach_construct sampleRandom _ _ _ _ _ _ sampleWorld_constructed).
  assert (Hf : (7 <= 8)%nat) by (repeat constructor).
  split; [exact sampleRandom_unit|]. split; [exact Hr|]. split; [exact Hf|].
  destruct (animate_composes_layers sampleRandom triangleWave (Fin 3) 8 (Fin 1700)
              sampleWorld sampleRandom_unit Hr Hf)
    as (grid & lines & positions & _ & _ & _ & E & _).
  eexists. split; [exact E|]. cbn [completion rescheduled after randomCalls].
  split; [reflexivity|]. split; [reflexivity|].
  destruct (handle sampleRandom Frame sampleWorld). reflexivity.
Defined.

(** X18.  When a connection names a location outside the list, [animate]
    ends in the connection layer: the markers and the packets are not drawn,
    no packet advances, [Math.random] is not called and the next frame is not
    scheduled, so the animation stops. *)
Theorem animate_stops_when_lines_throw :
  forall rnd Math_sin Math_PI fuel now s k before c rest,
    (7 <= fuel)%nat ->
    connections s = before ++ c :: rest ->
    Forall validConnection before ->
    ~ validConnection c ->
    exists r,
      animate Math_sin Math_PI rnd fuel now s k = Some r /\
      completion r = TypeError /\ rescheduled r = false /\
      after r = s /\ randomCalls r = k /\
      arcsOf (drawn r) = [] /\
      exists grid lines,
        drawWireframeGrid fuel s = Some grid /\
        drawConnectionLines s = (lines, TypeError) /\
        drawn r
        = [Draw.clearRect (Fin 0) (Fin 0) (width s) (height s)]
            ++ grid ++ drawUSBorder s ++ lines.
Proof.
  intros rnd Math_sin Math_PI fuel now s k before c rest Hfuel E Hb Hc.
  assert (Hg : exists grid,
             drawWireframeGrid fuel s = Some grid /\ arcsOf grid = []).
  { replace fuel with (7 + (fuel - 7))%nat by lia.
    unfold drawWireframeGrid.
    rewrite (forUpTo_more 7 _ _ _ _ _ _ (forUpTo_parallels _)).
    rewrite (forUpTo_more 7 _ _ _ _ _ _ (forUpTo_meridians _)).
    eexists. split; reflexivity. }
  destruct Hg as (grid & Eg & Ag).
  assert (Hl : exists lines,
             drawConnectionLines s = (lines, TypeError) /\ arcsOf lines = []).
  { unfold drawConnectionLines. rewrite E. clear E.
    assert (H : exists cmds,
               forEachConnection s (before ++ c :: rest) = (cmds, TypeError) /\
               arcsOf cmds = []).
    { induction Hb as [|d before [Hf Ht] Hbefore IH].
      - exists []. split; [|reflexivity]. cbn [app forEachConnection].
        destruct (nth_error edgeLocations (Connection.from c)) as [a|] eqn:Ea;
          [|reflexivity].
        destruct (nth_error edgeLocations (Connection.to c)) as [b|] eqn:Eb;
          [|reflexivity].
        exfalso. apply Hc. split; apply nth_error_Some; congruence.
      - cbn [app forEachConnection].
        destruct (lookup_valid _ Hf) as (a & ->).
        destruct (lookup_valid _ Ht) as (b & ->).
        destruct IH as (cmds & -> & Ha).
        eexists. split; [reflexivity|]. exact Ha. }
    destruct H as (cmds & -> & Ha). eexists. split; [reflexivity | exact Ha]. }
  destruct Hl as (lines & El & Al).
  assert (Ab : arcsOf (drawUSBorder s) = []).
  { unfold drawUSBorder, arcsOf. rewrite flat_map_app. cbn [flat_map app].
    induction (nationPath s) as [|ring rings IH]; [reflexivity|].
    cbn [flat_map]. rewrite flat_map_app, IH, app_nil_r.
    destruct ring as [|v vs]; [reflexivity|].
    rewrite drawRing_cons, !flat_map_app. cbn [flat_map app].
    rewrite app_nil_r. fold (lineTos s vs).
    induction vs as [|u us IHu]; [reflexivity | exact IHu]. }
  eexists. unfold animate. rewrite Eg, El.
  split; [reflexivity|]. cbn [completion rescheduled after randomCalls drawn].
  repeat split.
  - unfold arcsOf in *. rewrite !flat_map_app, Ag, Ab, Al. reflexivity.
  - exists grid, lines. repeat split. now rewrite <- !app_assoc.
Qed.

(** The sample map with a bad connection stops at its first frame. *)
Lemma animate_stops_when_lines_throw_witness :
  (7 <= 7)%nat /\
  connections sampleBadMesh
  = [Connection.mk 0 1] ++ Connection.mk 2 28 :: [Connection.mk 3 4] /\
  Forall validConnection [Connection.mk 0 1] /\
  ~ validConnection (Connection.mk 2 28) /\
  exists r,
    animate triangleWave (Fin 3) sampleRandom 7 (Fin 0) sampleBadMesh 0 = Some r /\
    completion r = TypeError /\ rescheduled r = false.
Proof.
  assert (Hf : (7 <= 7)%nat) by constructor.
  assert (E : connections sampleBadMesh
              = [Connection.mk 0 1] ++ Connection.mk 2 28 :: [Connection.mk 3 4])
    by reflexivity.
  assert (Hb : Forall validConnection [Connection.mk 0 1]).
  { repeat constructor. }
  assert (Hc : ~ validConnection (Connection.mk 2 28)).
  { intros [_ H]. apply Nat.lt_irrefl in H. exact H. }
  do 4 (split; [assumption|]).
  destruct (animate_stops_when_lines_throw sampleRandom triangleWave (Fin 3) 7
              (Fin 0) sampleBadMesh 0%nat _ _ _ Hf E Hb Hc)
    as (r & Er & H1 & H2 & _).
  exists r. split; [exact Er|]. split; [exact H1 | exact H2].
Defined.
